(** * Path tableaux: local rules, promotion, evacuation and cactus generators

    A shallow embedding of [ElementMethods] of the category [PathTableaux]
    (src/sage/categories/pathtableaux.py).  An element is a Python list of
    shapes; the abstract method [_rule] is a parameter.  Exceptions are
    values of an error monad, integer arguments are [Z], list positions are
    [nat] once Python's index rules have been applied. *)

From Stdlib Require Import ZArith String DecimalString.
From stdpp Require Import base option list list_numbers strings.

Open Scope Z_scope.

(** ** Exceptions and the error monad *)

Inductive exn : Type :=
  | ValueError (msg : string)
  | IndexError (msg : string)
  | NameError (name : string)
  | RecursionError
  | TypeError (msg : string).

Inductive exc (A : Type) : Type :=
  | Ok (a : A)
  | Raise (e : exn).
Arguments Ok {A} a.
Arguments Raise {A} e.

#[global] Instance exc_ret : MRet exc := fun A a => Ok a.
#[global] Instance exc_bind : MBind exc := fun A B f m =>
  match m with
  | Ok a => f a
  | Raise e => Raise e
  end.

(** [for x in xs: acc = body acc x], stopping at the first exception. *)
Fixpoint for_each {A B : Type} (body : A -> B -> exc A) (xs : list B) (acc : A)
  : exc A :=
  match xs with
  | [] => Ok acc
  | x :: xs' => acc' ← body acc x; for_each body xs' acc'
  end.

(** ** Python built-ins used by the module *)

(** [range(lo, hi)]. *)
Definition range (lo hi : Z) : list Z := seqZ lo (hi - lo).

(** [len(l)] as a Python integer. *)
Definition len {A : Type} (l : list A) : Z := Z.of_nat (length l).

(** How a slice bound is clamped into [0 .. len]: a negative bound counts
    from the end. *)
Definition slice_bound (n k : Z) : Z :=
  if k <? 0 then Z.max 0 (k + n) else Z.min k n.

(** [l[lo:hi]]. *)
Definition slice {A : Type} (l : list A) (lo hi : Z) : list A :=
  let a := slice_bound (len l) lo in
  let b := slice_bound (len l) hi in
  take (Z.to_nat (b - a)) (drop (Z.to_nat a) l).

(** [l[i] = v]: in range after the negative-index rule, else [IndexError]. *)
Definition setitem {A : Type} (l : list A) (i : Z) (v : A) : exc (list A) :=
  let k := if i <? 0 then i + len l else i in
  if (0 <=? k) && (k <? len l)
  then Ok (<[Z.to_nat k := v]> l)
  else Raise (IndexError "list assignment index out of range").

(** [l.pop()]: the last item and the list without it. *)
Definition pop {A : Type} (l : list A) : exc (A * list A) :=
  match last l with
  | Some x => Ok (x, removelast l)
  | None => Raise (IndexError "pop from empty list")
  end.

(** ["%d" % i]. *)
Definition pct_d (i : Z) : string := NilZero.string_of_int (Z.to_int i).

(** [[x] * k]; a count below one gives the empty list. *)
Definition times {A : Type} (x : A) (k : Z) : list A := replicate (Z.to_nat k) x.

(** Names bound at module level by the import statements and the class
    statement; a method body resolves a free name here (the enclosing
    class body is not a scope for it), then among the built-ins. *)
Definition module_globals : list string :=
  ["abstract_method"; "Category"; "Sets"; "PathTableaux"].
Definition builtins_used : list string :=
  ["len"; "list"; "range"; "set"; "all"; "max"; "enumerate"; "ValueError"].

Definition name_lookup (x : string) : exc unit :=
  if bool_decide (x ∈ module_globals ++ builtins_used)
  then Ok tt else Raise (NameError x).

(** The value of a free name where a list or an integer is needed: the
    names that the module binds are functions and classes. *)
Definition name_value {A : Type} (x : string) : exc A :=
  _ ← name_lookup x; Raise (TypeError "not a list or an integer").

(** [l[i]]: in range after the negative-index rule, else [IndexError]. *)
Definition getitem {A : Type} (l : list A) (i : Z) : exc A :=
  let k := if i <? 0 then i + len l else i in
  match (if 0 <=? k then l !! Z.to_nat k else None) with
  | Some x => Ok x
  | None => Raise (IndexError "list index out of range")
  end.

(** [itertools.combinations(l, r)]: the sublists of [r] items, in the
    order of their positions. *)
Fixpoint combinations {A : Type} (l : list A) (r : nat) {struct l}
  : list (list A) :=
  match r, l with
  | O, _ => [[]]
  | S _, [] => []
  | S r', x :: l' => (cons x <$> combinations l' r') ++ combinations l' r
  end.

(** ** The element methods *)

Section ElementMethods.
Context {Shape : Type} `{EqDecision Shape}.

(** The abstract method [_rule]: it is handed a list (a slice of the
    element) and either returns a shape or raises. *)
Variable _rule : list Shape -> exc Shape.

(** [self.parent()(l)]: the element with the items of [l].  The validity
    test [check] of a concrete element class is not part of the category
    code and is not modelled. *)
Definition element (l : list Shape) : list Shape := l.

Definition size (self : list Shape) : Z := len self.

Definition local_rule (self : list Shape) (i : Z) : exc (list Shape) :=
  if negb ((0 <? i) && (i <? len self)) then
    Raise (ValueError (pct_d i ++ " is not a valid integer."))
  else
    let result := self in
    v ← _rule (slice self (i - 1) (i + 2));
    result ← setitem result i v;
    Ok (element result).

Definition promotion (self : list Shape) : exc (list Shape) :=
  let result := self in
  result ← for_each
    (fun result i => v ← _rule (slice result (i - 1) (i + 2));
                     setitem result i v)
    (range 1 (len result - 1)) result;
  Ok (element result).

Definition evacuation (self : list Shape) : exc (list Shape) :=
  if size self <? 3 then Ok self
  else
    let L := self in
    let result := [] in
    '(L, result) ← for_each
      (fun '(L, result) (_ : Z) =>
         T ← promotion (element L);
         '(x, L) ← pop T;
         Ok (L, result ++ [x]))
      (range 0 (len self)) (L, result);
    Ok (element (reverse result)).

(** [cactus]; [depth] is the number of nested calls still allowed. *)
Fixpoint cactus_rec (depth : nat) (self : list Shape) (i j : Z)
  : exc (list Shape) :=
  match depth with
  | O => Raise RecursionError
  | S depth' =>
    if negb ((0 <? i) && (i <? j) && (j <? size self)) then
      Raise (ValueError "Integers out of bounds.")
    else if i =? j then Ok self
    else if i =? 1 then
      let h := slice self 0 (j - 1) in
      let t := slice self (j - 1) (len self) in
      let T := element h in
      e ← evacuation T;
      let L := e ++ t in
      Ok (element L)
    else
      a ← cactus_rec depth' self 1 j;
      b ← cactus_rec depth' a 1 (j - i);
      cactus_rec depth' b 1 j
  end.

Definition recursion_limit : nat := 1000.

Definition cactus (self : list Shape) (i j : Z) : exc (list Shape) :=
  cactus_rec recursion_limit self i j.

(** A table cell is a shape or the placeholder [None].  The rows of the
    table built first are one and the same list object; no row is ever
    updated in place, each is replaced by the assignment in the loop, so
    the table is modelled by its value. *)
Definition cylindrical_diagram (self : list Shape)
  : exc (list (list (option Shape))) :=
  let n := len self in
  let result := times (times None (2 * n - 1)) n in
  let T := self in
  '(result, T) ← for_each
    (fun '(result, T) i =>
       result ← setitem result i (times None i ++ (Some <$> T));
       T ← promotion T;
       Ok (result, T))
    (range 0 n) (result, T);
  Ok result.

Definition check_involution_rule (self : list Shape) : exc bool :=
  ok ← for_each
    (fun (ok : bool) i =>
       if ok then
         a ← local_rule self (i + 1);
         b ← local_rule a (i + 1);
         Ok (bool_decide (b = self))
       else Ok false)
    (range 0 (size self - 2)) true;
  Ok ok.

Definition check_involution_cactus (self : list Shape) : exc bool :=
  l ← mapM (fun i => a ← cactus self 1 i; b ← cactus a 1 i;
                     Ok (bool_decide (b = self)))
           (range 2 (size self));
  Ok (forallb id l).

Definition check_promotion (self : list Shape) : exc bool :=
  let n := size self in
  lhs ← promotion self;
  a ← cactus self 1 n;
  rhs ← cactus a 2 n;
  Ok (bool_decide (lhs = rhs)).

(** One pass of the body of the [while] loop of [orbit]; a Python set is
    a list without repetition, visited in list order. *)
Definition orbit_sweep (self : list Shape) (orb rec new : list (list Shape))
  : exc (list (list Shape) * list (list Shape)) :=
  new ← for_each
    (fun new a =>
       for_each
         (fun new i =>
            b ← cactus a 1 (i + 1);
            if bool_decide (b ∉ orb) && bool_decide (b ∉ rec)
            then Ok (if bool_decide (b ∈ new) then new else new ++ [b])
            else Ok new)
         (range 0 (size self)) new)
    rec new;
  _ ← name_lookup "orbit";
  _ ← name_lookup "copy";
  let rec := new in
  let new := [] in
  Ok (rec, new).

(** The [while] loop, unrolled at most [fuel] times; [None] when the
    loop is still running after that. *)
Fixpoint orbit_while (fuel : nat) (self : list Shape)
    (orb rec new : list (list Shape)) : option (exc (list (list Shape))) :=
  if bool_decide (rec = []) then Some (Ok orb)
  else
    match fuel with
    | O => None
    | S fuel' =>
      match orbit_sweep self orb rec new with
      | Raise e => Some (Raise e)
      | Ok (rec', new') => orbit_while fuel' self orb rec' new'
      end
    end.

Definition orbit (fuel : nat) (self : list Shape)
  : option (exc (list (list Shape))) :=
  let orb := [] in
  let rec := [self] in
  let new := [] in
  orbit_while fuel self orb rec new.

Definition initial_shape (self : list Shape) : exc Shape := getitem self 0.

Definition final_shape (self : list Shape) : exc Shape := getitem self (-1).

(** [commutor]: the last line reads the name [result], which the method
    never assigns. *)
Definition commutor (self other : list Shape) : exc (list Shape) :=
  let n := len self in
  let m := len other in
  let row := self in
  let col := other in
  row ← for_each
    (fun row i =>
       c ← getitem col (i - 1);
       r0 ← getitem row 0;
       r1 ← getitem row 1;
       v ← _rule [c; r0; r1];
       row ← setitem row 0 v;
       for_each
         (fun row j => v ← _rule (slice row (i - 1) (i + 2));
                       setitem row j v)
         (range 1 n) row)
    (range 1 m) row;
  result ← name_value "result";
  Ok (element result).

(** The four-index checks; a combination is unpacked into [i, j, r, s]. *)
Definition check_commutation (self : list Shape) : exc bool :=
  let n := size self in
  for_each
    (fun (ok : bool) c =>
       if ok then
         match c with
         | [i; j; r; s] =>
           a ← cactus self i j;
           lhs ← cactus a r s;
           b ← cactus self r s;
           rhs ← cactus b i j;
           Ok (bool_decide (lhs = rhs))
         | _ => Raise (ValueError "not enough values to unpack")
         end
       else Ok false)
    (combinations (range 0 n) 4) true.

Definition check_coboundary (self : list Shape) : exc bool :=
  let n := size self in
  for_each
    (fun (ok : bool) c =>
       if ok then
         match c with
         | [i; j; r; s] =>
           a ← cactus self i s;
           lhs ← cactus a j r;
           b ← cactus self (i + s - r) (i + s - j);
           rhs ← cactus b i s;
           Ok (bool_decide (lhs = rhs))
         | _ => Raise (ValueError "not enough values to unpack")
         end
       else Ok false)
    (combinations (range 0 n) 4) true.

(** [check_consistent]: the bound [n] of its loop is a name that the
    method never assigns.  The element built from cells of the diagram is
    compared with the generator cell by cell. *)
Definition check_consistent (self : list Shape) : exc bool :=
  d ← cylindrical_diagram self;
  n ← name_value "n";
  for_each
    (fun (ok : bool) i =>
       if ok then
         t ← mapM (fun j => row ← getitem d i; getitem row (i - j))
                  (range 0 (i - 1));
         d0 ← getitem d 0;
         let x := t ++ slice d0 i (len d0) in
         c ← cactus self 1 i;
         Ok (bool_decide (x = (Some <$> c)))
       else Ok false)
    (range 1 n) true.

End ElementMethods.

(** ** Vocabulary of the statements *)

Section Vocabulary.
Context {Shape : Type}.
Variable _rule : list Shape -> exc Shape.

(** [i] has a left and a right neighbour in [s]. *)
Definition interior (s : list Shape) (i : Z) : Prop := 0 < i < size s - 1.

(** The pairs on which [cactus] returns: they pass its test, and either
    no nested call is made or the middle nested call passes the test
    too. *)
Definition cactus_accepts (s : list Shape) (i j : Z) : Prop :=
  0 < i < j /\ j < size s /\ (i = 1 \/ i + 2 <= j).

(** [n] successive promotions. *)
Fixpoint promotion_iter (n : nat) (s : list Shape) : exc (list Shape) :=
  match n with
  | O => Ok s
  | S n' => t ← promotion_iter n' s; promotion _rule t
  end.
End Vocabulary.

(** ** A concrete element class: integer shapes with the rule [a + c - b] *)

Definition diff_rule (p : list Z) : exc Z :=
  match p with
  | [a; b; c] => Ok (a + c - b)
  | _ => Raise (ValueError "not enough values to unpack")
  end.

(** A rule that also accepts a shorter slice. *)
Definition sum_rule (p : list Z) : exc Z :=
  match p with
  | [a; b; c] => Ok (a + c - b)
  | _ => Ok (foldr Z.add 0 p)
  end.

(** A rule that moves the middle shape to the other neighbour. *)
Definition toggle_rule (p : list Z) : exc Z :=
  match p with
  | [a; b; c] => Ok (if b =? a then c else if b =? c then a else b)
  | _ => Raise (ValueError "not enough values to unpack")
  end.

(** ** The contract of [_rule] *)

Section Contract.
Context {Shape : Type}.
Variable _rule : list Shape -> exc Shape.

(** The rule returns a shape on every list of length three. *)
Definition rule_returns : Prop :=
  forall a b c, exists b', _rule [a; b; c] = Ok b'.

(** Replacing the middle term of a triple by the output of the rule is an
    involution. *)
Definition involution_contract : Prop :=
  forall a b c, exists b',
    _rule [a; b; c] = Ok b' /\ _rule [a; b'; c] = Ok b.

(** The value of the rule on a triple, the middle term standing in when
    the rule raises. *)
Definition rule3 (a b c : Shape) : Shape :=
  match _rule [a; b; c] with
  | Ok v => v
  | Raise _ => b
  end.
End Contract.

(** ** Promotion and evacuation as recursive functions on lists

    These are the closed forms that the loops of [promotion] and
    [evacuation] are proved to compute. *)

Section Growth.
Context {Shape : Type}.
Variable f : Shape -> Shape -> Shape -> Shape.

(** The new values at the positions of [l], where [p] is the new value
    to the left of [l] and [x] is the old value to its right. *)
Fixpoint sweep (p : Shape) (l : list Shape) (x : Shape) : list Shape :=
  match l with
  | [] => []
  | b :: l' => let b' := f p b (hd x l') in b' :: sweep b' l' x
  end.

(** The promotion of [t ++ [x]] without its last item [x]. *)
Definition promotion_init (x : Shape) (t : list Shape) : list Shape :=
  match t with
  | [] => []
  | a :: l => a :: sweep a l x
  end.

Definition promotion_list (s : list Shape) : list Shape :=
  match last s with
  | None => []
  | Some x => promotion_init x (removelast s) ++ [x]
  end.

(** [n] rounds of the loop of [evacuation] started at [t], the result
    read in the order of the reversed list. *)
Fixpoint evacuation_rounds (n : nat) (t : list Shape) : list Shape :=
  match n with
  | O => []
  | S n' =>
    match last t with
    | None => []
    | Some x => evacuation_rounds n' (removelast (promotion_list t)) ++ [x]
    end
  end.

Definition evacuation_list (t : list Shape) : list Shape :=
  evacuation_rounds (length t) t.

(** The generator with first index one: the head of [j - 1] items is
    evacuated, the tail is kept. *)
Definition cactus_one_list (j : Z) (s : list Shape) : list Shape :=
  evacuation_list (take (Z.to_nat (j - 1)) s) ++ drop (Z.to_nat (j - 1)) s.

(** What [cactus] computes once its nested calls are unfolded. *)
Definition cactus_list (s : list Shape) (i j : Z) : exc (list Shape) :=
  if negb ((0 <? i) && (i <? j) && (j <? len s)) then
    Raise (ValueError "Integers out of bounds.")
  else if i =? 1 then Ok (cactus_one_list j s)
  else if j - i <? 2 then Raise (ValueError "Integers out of bounds.")
  else Ok (cactus_one_list j (cactus_one_list (j - i) (cactus_one_list j s))).

(** Rows [k], [k + 1], ... of the cylindrical diagram, [m] of them, where
    [T] is the sequence of row [k]. *)
Fixpoint diagram_rows (k m : nat) (T : list Shape)
  : list (list (option Shape)) :=
  match m with
  | O => []
  | S m' => (replicate k None ++ (Some <$> T))
            :: diagram_rows (S k) m' (promotion_list T)
  end.
End Growth.

(** ** A store of list objects, for [local_rule]

    Objects are numbered in the order of their creation. *)

Module Store.
Section Store.
Context {Shape : Type}.
Variable _rule : list Shape -> exc Shape.

(** The store lists the objects; a reference is a position in it. *)
Local Abbreviation heap := (list (list Shape)).
Local Abbreviation ref := nat.

(** A computation on the store that may raise. *)
Definition st (A : Type) : Type := heap -> exc (A * heap).

#[global] Instance st_ret : MRet st := fun A a h => Ok (a, h).
#[global] Instance st_bind : MBind st := fun A B k m h =>
  match m h with
  | Ok (a, h') => k a h'
  | Raise e => Raise e
  end.

Definition lift {A : Type} (m : exc A) : st A := fun h =>
  match m with
  | Ok a => Ok (a, h)
  | Raise e => Raise e
  end.

(** A new list object with the given items. *)
Definition new (l : list Shape) : st ref := fun h => Ok (length h, h ++ [l]).

(** The items of an object. *)
Definition read (r : ref) : st (list Shape) := fun h =>
  match h !! r with
  | Some l => Ok (l, h)
  | None => Raise (NameError "unbound object")
  end.

(** [r[i] = v], in place. *)
Definition write (r : ref) (i : Z) (v : Shape) : st unit := fun h =>
  match h !! r with
  | Some l =>
    match setitem l i v with
    | Ok l' => Ok (tt, <[r := l']> h)
    | Raise e => Raise e
    end
  | None => Raise (NameError "unbound object")
  end.

Definition local_rule (self : ref) (i : Z) : st ref :=
  s ← read self;
  if negb ((0 <? i) && (i <? len s)) then
    lift (Raise (ValueError (pct_d i ++ " is not a valid integer.")))
  else
    result ← new s;
    p ← new (slice s (i - 1) (i + 2));
    p ← read p;
    v ← lift (_rule p);
    _ ← write result i v;
    l ← read result;
    new l.
End Store.
End Store.

(** * Properties *)

(** ** The error monad and the list primitives *)

Lemma bind_Ok {A B : Type} (a : A) (k : A -> exc B) : (Ok a ≫= k) = k a.
Proof. reflexivity. Qed.

Lemma bind_Raise {A B : Type} (e : exn) (k : A -> exc B) :
  (Raise e ≫= k) = Raise e.
Proof. reflexivity. Qed.

Lemma bind_Ok_inv {A B : Type} (m : exc A) (k : A -> exc B) (b : B) :
  (m ≫= k) = Ok b -> exists a, m = Ok a /\ k a = Ok b.
Proof. destruct m as [a|e]; [eauto | discriminate]. Qed.

Lemma len_app {A : Type} (l k : list A) : len (l ++ k) = len l + len k.
Proof. unfold len. rewrite length_app. lia. Qed.

Lemma len_cons {A : Type} (x : A) (l : list A) : len (x :: l) = len l + 1.
Proof. unfold len. simpl. lia. Qed.

Lemma len_nonneg {A : Type} (l : list A) : 0 <= len l.
Proof. unfold len. lia. Qed.

(** A slice with both bounds inside the list is a [take] of a [drop]. *)
Lemma slice_inside {A : Type} (l : list A) (lo hi : Z) :
  0 <= lo -> lo <= hi -> hi <= len l ->
  slice l lo hi = take (Z.to_nat (hi - lo)) (drop (Z.to_nat lo) l).
Proof.
  intros Hlo Hhi Hlen. unfold slice, slice_bound.
  destruct (Z.ltb_spec lo 0); [lia|].
  destruct (Z.ltb_spec hi 0); [lia|].
  rewrite !Z.min_l by lia. reflexivity.
Qed.

(** The three items around position [i]. *)
Lemma slice_window {A : Type} (pre rest : list A) (a b c : A) (i : Z) :
  i = len pre + 1 ->
  slice (pre ++ a :: b :: c :: rest) (i - 1) (i + 2) = [a; b; c].
Proof.
  intros ->. rewrite slice_inside.
  - replace (Z.to_nat (len pre + 1 - 1)) with (length pre) by (unfold len; lia).
    replace (Z.to_nat (len pre + 1 + 2 - (len pre + 1 - 1))) with 3%nat by lia.
    rewrite drop_app_length. reflexivity.
  - pose proof (len_nonneg pre). lia.
  - lia.
  - rewrite len_app, !len_cons. pose proof (len_nonneg rest). lia.
Qed.

Lemma setitem_middle {A : Type} (pre rest : list A) (x v : A) (i : Z) :
  i = len pre -> setitem (pre ++ x :: rest) i v = Ok (pre ++ v :: rest).
Proof.
  intros ->. unfold setitem. pose proof (len_nonneg pre) as Hp.
  pose proof (len_nonneg rest) as Hr.
  destruct (Z.ltb_spec (len pre) 0); [lia|].
  rewrite len_app, len_cons.
  destruct (Z.leb_spec 0 (len pre)); [|lia].
  destruct (Z.ltb_spec (len pre) (len pre + (len rest + 1))); [|lia].
  simpl. f_equal. unfold len. rewrite Nat2Z.id.
  replace (length pre) with (length pre + 0)%nat at 1 by lia.
  rewrite insert_app_r. reflexivity.
Qed.

Lemma setitem_length {A : Type} (l l' : list A) (i : Z) (v : A) :
  setitem l i v = Ok l' -> length l' = length l.
Proof.
  unfold setitem. destruct (_ && _); [|discriminate].
  intros [= <-]. apply length_insert.
Qed.

Lemma pop_snoc {A : Type} (l : list A) (x : A) : pop (l ++ [x]) = Ok (x, l).
Proof. unfold pop. rewrite last_snoc, removelast_last. reflexivity. Qed.

Lemma pop_length {A : Type} (l l' : list A) (x : A) :
  pop l = Ok (x, l') -> length l = S (length l').
Proof.
  destruct l as [|y t _] using rev_ind; [discriminate|].
  rewrite pop_snoc. intros [= _ <-]. rewrite length_app. simpl. lia.
Qed.

Lemma setitem_inside {A : Type} (l : list A) (i : Z) (v : A) :
  0 <= i < len l -> setitem l i v = Ok (<[Z.to_nat i := v]> l).
Proof.
  intros Hi. unfold setitem.
  destruct (Z.ltb_spec i 0); [lia|].
  destruct (Z.leb_spec 0 i); [|lia].
  destruct (Z.ltb_spec i (len l)); [|lia]. reflexivity.
Qed.

(** The head and the tail cut at the same place give the list back. *)
Lemma slice_split {A : Type} (l : list A) (k : Z) :
  0 <= k <= len l -> slice l 0 k ++ slice l k (len l) = l.
Proof.
  intros Hk. rewrite !slice_inside by lia.
  rewrite Z.sub_0_r. change (drop (Z.to_nat 0) l) with l.
  rewrite (take_ge (drop _ _)) by (rewrite length_drop; unfold len; lia).
  apply take_drop.
Qed.

Lemma for_each_invariant {A B : Type} (P : A -> Prop)
    (body : A -> B -> exc A) (xs : list B) :
  (forall a x a', P a -> body a x = Ok a' -> P a') ->
  forall acc r, P acc -> for_each body xs acc = Ok r -> P r.
Proof.
  intros Hstep. induction xs as [|x xs IH]; intros acc r Hacc; simpl.
  - now intros [= <-].
  - intros H. apply bind_Ok_inv in H as (a' & Ha & Hr). eauto.
Qed.

(** A position with two neighbours cuts the list around a window of
    three items. *)
Lemma window_split {A : Type} (s : list A) (i : Z) :
  0 < i < len s - 1 ->
  exists pre a b c rest, s = pre ++ a :: b :: c :: rest /\ len pre = i - 1.
Proof.
  intros Hi. exists (take (Z.to_nat (i - 1)) s).
  assert (length (drop (Z.to_nat (i - 1)) s) >= 3)%nat as Hd
    by (rewrite length_drop; unfold len in Hi; lia).
  destruct (drop (Z.to_nat (i - 1)) s) as [|a [|b [|c rest]]] eqn:E;
    simpl in Hd; try lia.
  exists a, b, c, rest. split.
  - rewrite <- E. symmetry. apply take_drop.
  - unfold len in *. rewrite length_take_le; lia.
Qed.

(** ** The closed forms of promotion and evacuation *)

Section GrowthFacts.
Context {Shape : Type}.
Variable f : Shape -> Shape -> Shape -> Shape.

Lemma sweep_length (p : Shape) (l : list Shape) (x : Shape) :
  length (sweep f p l x) = length l.
Proof.
  revert p. induction l as [|b l IH]; intros p; simpl; [reflexivity|].
  now rewrite IH.
Qed.

Lemma promotion_init_length (x : Shape) (t : list Shape) :
  length (promotion_init f x t) = length t.
Proof. destruct t; simpl; [reflexivity|]. now rewrite sweep_length. Qed.

Lemma promotion_list_snoc (t : list Shape) (x : Shape) :
  promotion_list f (t ++ [x]) = promotion_init f x t ++ [x].
Proof. unfold promotion_list. now rewrite last_snoc, removelast_last. Qed.

Lemma promotion_list_length (s : list Shape) :
  length (promotion_list f s) = length s.
Proof.
  destruct s as [|x t _] using rev_ind; [reflexivity|].
  rewrite promotion_list_snoc, !length_app, promotion_init_length.
  reflexivity.
Qed.

(** Sweeping one more position: the new last value is the rule applied
    to the previous new value, the added item and the right border. *)
Lemma sweep_snoc (p : Shape) (l : list Shape) (y x : Shape) :
  sweep f p (l ++ [y]) x =
  sweep f p l y ++ [f (default p (last (sweep f p l y))) y x].
Proof.
  revert p. induction l as [|b l IH]; intros p; simpl; [reflexivity|].
  assert (hd x (l ++ [y]) = hd y l) as -> by (destruct l; reflexivity).
  rewrite IH. f_equal. do 2 f_equal.
  set (b' := f p b (hd y l)).
  destruct (sweep f b' l y) as [|c w] eqn:E; [reflexivity|].
  rewrite last_cons_cons.
  destruct (last (c :: w)) eqn:E2; [reflexivity|].
  apply last_None in E2. discriminate.
Qed.

Lemma promotion_init_snoc (t u : list Shape) (q y x : Shape) :
  promotion_init f y t = u ++ [q] ->
  promotion_init f x (t ++ [y]) = u ++ [q; f q y x].
Proof.
  destruct t as [|a l]; simpl.
  - intros H. apply (f_equal length) in H.
    rewrite length_app in H. simpl in H. lia.
  - intros H. rewrite sweep_snoc.
    assert (default a (last (sweep f a l y)) = q) as ->.
    { destruct (sweep f a l y) as [|b w] eqn:E.
      - simpl. destruct u as [|? [|? ?]]; simplify_eq/=; reflexivity.
      - change (a :: b :: w) with ([a] ++ (b :: w)) in H.
        assert (last ([a] ++ b :: w) = Some q) as Hl
          by (rewrite H; apply last_snoc).
        rewrite last_app in Hl. destruct (last (b :: w)) eqn:E2.
        + simpl in *. congruence.
        + apply last_None in E2. discriminate. }
    change (a :: sweep f a l y ++ [f q y x])
      with ((a :: sweep f a l y) ++ [f q y x]).
    rewrite H, <- app_assoc. reflexivity.
Qed.

Lemma evacuation_rounds_snoc (n : nat) (t : list Shape) (x : Shape) :
  evacuation_rounds f (S n) (t ++ [x]) =
  evacuation_rounds f n (promotion_init f x t) ++ [x].
Proof.
  simpl. now rewrite last_snoc, promotion_list_snoc, removelast_last.
Qed.

Lemma evacuation_list_snoc (t : list Shape) (x : Shape) :
  evacuation_list f (t ++ [x]) =
  evacuation_list f (promotion_init f x t) ++ [x].
Proof.
  unfold evacuation_list. rewrite length_app, promotion_init_length.
  replace (length t + length [x])%nat with (S (length t)) by (simpl; lia).
  apply evacuation_rounds_snoc.
Qed.

Lemma evacuation_list_length (t : list Shape) :
  length (evacuation_list f t) = length t.
Proof.
  remember (length t) as n eqn:Hn. revert t Hn.
  induction n as [|n IH]; intros t Hn.
  - destruct t; [reflexivity | discriminate].
  - destruct t as [|x t _] using rev_ind; [discriminate|].
    rewrite length_app in Hn. simpl in Hn.
    rewrite evacuation_list_snoc, length_app, IH.
    + simpl. lia.
    + rewrite promotion_init_length. lia.
Qed.

Lemma cactus_one_list_length (j : Z) (s : list Shape) :
  length (cactus_one_list f j s) = length s.
Proof.
  unfold cactus_one_list.
  rewrite length_app, evacuation_list_length, <- length_app, take_drop.
  reflexivity.
Qed.

Lemma cactus_list_returns (s : list Shape) (i j : Z) :
  cactus_accepts s i j -> exists t, cactus_list f s i j = Ok t.
Proof.
  intros Hacc. unfold cactus_list, cactus_accepts, size in *.
  destruct (Z.ltb_spec 0 i); [|lia]. destruct (Z.ltb_spec i j); [|lia].
  destruct (Z.ltb_spec j (len s)); [|lia]. cbn [andb negb].
  destruct (Z.eqb_spec i 1); [eauto|].
  destruct (Z.ltb_spec (j - i) 2); [lia|eauto].
Qed.

Lemma cactus_list_rejects (s : list Shape) (i j : Z) :
  ~ cactus_accepts s i j ->
  cactus_list f s i j = Raise (ValueError "Integers out of bounds.").
Proof.
  intros Hn. unfold cactus_list, cactus_accepts, size in *.
  destruct (Z.ltb_spec 0 i); [|reflexivity].
  destruct (Z.ltb_spec i j); [|reflexivity].
  destruct (Z.ltb_spec j (len s)); [|reflexivity].
  cbn [andb negb].
  destruct (Z.eqb_spec i 1); [lia|].
  destruct (Z.ltb_spec (j - i) 2); [reflexivity|lia].
Qed.

(** Sequences shorter than three are fixed by the loop of [evacuation]. *)
Lemma evacuation_list_short (t : list Shape) :
  (length t < 3)%nat -> evacuation_list f t = t.
Proof.
  destruct t as [|a [|b [|c t]]]; simpl; intros H; try reflexivity. lia.
Qed.

Section Involution.
Hypothesis f_involution : forall a b c, f a (f a b c) c = b.

(** Evacuating the truncated promotion is undone by doing it again:
    the triangle of the evacuated sequence is the mirror image of the
    triangle of the sequence. *)
Lemma promotion_init_evacuation (n : nat) :
  forall (t : list Shape) (x : Shape), length t = n ->
    promotion_init f x (evacuation_list f (promotion_init f x t)) =
    evacuation_list f t.
Proof.
  induction n as [n IH] using lt_wf_ind. intros t x Hn.
  destruct t as [|y t' _] using rev_ind; [reflexivity|].
  destruct (decide (t' = [])) as [->|Hne]; [reflexivity|].
  rewrite length_app in Hn. simpl in Hn.
  destruct (promotion_init f y t') as [|q u _] eqn:Hu using rev_ind.
  { apply (f_equal length) in Hu. rewrite promotion_init_length in Hu.
    destruct t'; [congruence | discriminate]. }
  assert (length (u ++ [q]) = length t') as Hlen
    by (rewrite <- Hu; apply promotion_init_length).
  rewrite (promotion_init_snoc t' u q y x Hu).
  change (u ++ [q; f q y x]) with (u ++ [q] ++ [f q y x]).
  rewrite app_assoc. set (z := f q y x).
  rewrite evacuation_list_snoc.
  assert (promotion_init f z (evacuation_list f (promotion_init f z (u ++ [q])))
          = evacuation_list f (promotion_init f q u) ++ [q]) as Hmid.
  { rewrite (IH (length (u ++ [q]))); [|lia|reflexivity].
    apply evacuation_list_snoc. }
  rewrite (promotion_init_snoc _ _ _ _ x Hmid).
  subst z. rewrite f_involution.
  rewrite (evacuation_list_snoc t' y), Hu, (evacuation_list_snoc u q).
  rewrite <- app_assoc. reflexivity.
Qed.

Lemma evacuation_list_involution (t : list Shape) :
  evacuation_list f (evacuation_list f t) = t.
Proof.
  remember (length t) as n eqn:Hn. revert t Hn.
  induction n as [|n IH]; intros t Hn.
  - destruct t; [reflexivity | discriminate].
  - destruct t as [|x t _] using rev_ind; [discriminate|].
    rewrite length_app in Hn. simpl in Hn.
    rewrite evacuation_list_snoc, evacuation_list_snoc.
    rewrite (promotion_init_evacuation (length t)) by reflexivity.
    rewrite IH by lia. reflexivity.
Qed.
End Involution.
End GrowthFacts.

(** ** The loops compute the closed forms *)

Section Loops.
Context {Shape : Type}.
Variable _rule : list Shape -> exc Shape.
Hypothesis rule_ok : rule_returns _rule.

Local Abbreviation f := (rule3 _rule).

Lemma rule3_value (a b c : Shape) : _rule [a; b; c] = Ok (f a b c).
Proof. unfold rule3. destruct (rule_ok a b c) as [v ->]. reflexivity. Qed.

(** The loop of [promotion], started at position [len pre + 1] with the
    positions before it already rewritten. *)
Lemma promotion_loop (l pre : list Shape) (p x : Shape) :
  for_each
    (fun result i => v ← _rule (slice result (i - 1) (i + 2));
                     setitem result i v)
    (seqZ (len pre + 1) (len l)) (pre ++ p :: l ++ [x])
  = Ok (pre ++ p :: sweep f p l x ++ [x]).
Proof.
  revert pre p. induction l as [|b l IH]; intros pre p; [reflexivity|].
  rewrite len_cons, seqZ_cons by (pose proof (len_nonneg l); lia).
  assert (exists rest, l ++ [x] = hd x l :: rest) as [rest E]
    by (destruct l; simpl; eauto).
  cbn [for_each sweep]. rewrite <- app_comm_cons, E.
  rewrite slice_window by reflexivity.
  rewrite rule3_value, bind_Ok.
  replace (pre ++ p :: b :: hd x l :: rest)
    with ((pre ++ [p]) ++ b :: hd x l :: rest)
    by (rewrite <- app_assoc; reflexivity).
  rewrite setitem_middle by (rewrite len_app; reflexivity).
  rewrite bind_Ok, <- E.
  replace (Z.succ (len pre + 1)) with (len (pre ++ [p]) + 1)
    by (rewrite len_app; unfold len; simpl; lia).
  replace (Z.pred (len l + 1)) with (len l) by lia.
  rewrite IH, <- app_assoc. reflexivity.
Qed.

Lemma promotion_eq (s : list Shape) :
  promotion _rule s = Ok (promotion_list f s).
Proof.
  unfold promotion, element, range.
  destruct s as [|x t _] using rev_ind; [reflexivity|].
  rewrite promotion_list_snoc. destruct t as [|a l]; [reflexivity|].
  replace (len ((a :: l) ++ [x]) - 1 - 1) with (len l)
    by (rewrite len_app, len_cons; unfold len; simpl; lia).
  pose proof (promotion_loop l [] a x) as H.
  change (len [] + 1) with 1 in H. simpl in H. simpl.
  rewrite H. reflexivity.
Qed.

(** The loop of [evacuation]: one round for each item of [L]. *)
Lemma evacuation_loop (xs : list Z) :
  forall (L result : list Shape), length xs = length L ->
    for_each
      (fun '(L, result) (_ : Z) =>
         T ← promotion _rule (element L);
         '(x, L) ← pop T;
         Ok (L, result ++ [x]))
      xs (L, result)
    = Ok ([], result ++ reverse (evacuation_list f L)).
Proof.
  induction xs as [|z xs IH]; intros L result Hlen.
  - destruct L; [|discriminate]. simpl. now rewrite app_nil_r.
  - destruct L as [|x t _] using rev_ind; [discriminate|].
    rewrite length_app in Hlen. simpl in Hlen.
    cbn [for_each]. unfold element in *.
    rewrite promotion_eq, bind_Ok, promotion_list_snoc, pop_snoc, bind_Ok.
    rewrite bind_Ok, IH by (rewrite promotion_init_length; lia).
    rewrite evacuation_list_snoc, reverse_snoc, <- app_assoc.
    reflexivity.
Qed.

Lemma evacuation_eq (s : list Shape) :
  evacuation _rule s = Ok (evacuation_list f s).
Proof.
  unfold evacuation, size.
  destruct (Z.ltb_spec (len s) 3) as [Hs|Hs].
  - rewrite evacuation_list_short by (unfold len in Hs; lia). reflexivity.
  - rewrite evacuation_loop.
    + rewrite bind_Ok. unfold element. simpl.
      now rewrite reverse_involutive.
    + unfold range. rewrite length_seqZ. unfold len. lia.
Qed.

(** A call of [cactus] with first index one does not call [cactus]. *)
Lemma cactus_rec_one (d : nat) (s : list Shape) (j : Z) :
  1 < j < len s ->
  cactus_rec _rule (S d) s 1 j = Ok (cactus_one_list f j s).
Proof.
  intros Hj. cbn [cactus_rec]. unfold size.
  destruct (Z.ltb_spec 0 1); [|lia].
  destruct (Z.ltb_spec 1 j); [|lia].
  destruct (Z.ltb_spec j (len s)); [|lia].
  destruct (Z.eqb_spec 1 j); [lia|].
  cbn [andb negb Z.eqb Pos.eqb]. unfold element.
  rewrite evacuation_eq, bind_Ok. unfold cactus_one_list.
  rewrite !slice_inside by lia.
  rewrite Z.sub_0_r. cbn [Z.to_nat drop]. do 2 f_equal.
  apply take_ge. rewrite length_drop. unfold len. lia.
Qed.

Lemma cactus_rec_eq (d : nat) (s : list Shape) (i j : Z) :
  cactus_rec _rule (S (S d)) s i j = cactus_list f s i j.
Proof.
  unfold cactus_list.
  destruct (negb _) eqn:G.
  { cbn [cactus_rec]. unfold size. now rewrite G. }
  apply negb_false_iff in G. apply andb_prop in G as [G Hj].
  apply andb_prop in G as [Hi Hij].
  apply Z.ltb_lt in Hi, Hij, Hj.
  destruct (Z.eqb_spec i 1) as [->|Hi1].
  { apply cactus_rec_one. lia. }
  assert (cactus_rec _rule (S (S d)) s i j =
          (a ← cactus_rec _rule (S d) s 1 j;
           b ← cactus_rec _rule (S d) a 1 (j - i);
           cactus_rec _rule (S d) b 1 j)) as ->.
  { cbn [cactus_rec]. unfold size.
    destruct (Z.ltb_spec 0 i); [|lia].
    destruct (Z.ltb_spec i j); [|lia].
    destruct (Z.ltb_spec j (len s)); [|lia].
    destruct (Z.eqb_spec i j); [lia|].
    destruct (Z.eqb_spec i 1); [lia|]. reflexivity. }
  rewrite cactus_rec_one, bind_Ok by lia.
  destruct (Z.ltb_spec (j - i) 2) as [Hs|Hs].
  - assert (j - i = 1) as -> by lia. reflexivity.
  - rewrite cactus_rec_one, bind_Ok
      by (unfold len; rewrite cactus_one_list_length; fold (len s); lia).
    apply cactus_rec_one.
    unfold len. rewrite !cactus_one_list_length. fold (len s). lia.
Qed.

Lemma cactus_eq (s : list Shape) (i j : Z) :
  cactus _rule s i j = cactus_list f s i j.
Proof.
  unfold cactus, recursion_limit.
  change 1000%nat with (S (S 998)). apply cactus_rec_eq.
Qed.
End Loops.

(** ** Consequences of the contract *)

Section ContractFacts.
Context {Shape : Type}.
Variable _rule : list Shape -> exc Shape.

Lemma contract_returns : involution_contract _rule -> rule_returns _rule.
Proof. intros H a b c. destruct (H a b c) as (b' & Hb & _). eauto. Qed.

Lemma rule3_involution :
  involution_contract _rule ->
  forall a b c, rule3 _rule a (rule3 _rule a b c) c = b.
Proof.
  intros H a b c. unfold rule3.
  destruct (H a b c) as (b' & -> & ->). reflexivity.
Qed.
End ContractFacts.

Lemma diff_rule_contract : involution_contract diff_rule.
Proof. intros a b c. exists (a + c - b). split; simpl; f_equal; lia. Defined.

Lemma sum_rule_contract : involution_contract sum_rule.
Proof. intros a b c. exists (a + c - b). split; simpl; f_equal; lia. Defined.

Lemma toggle_rule_contract : involution_contract toggle_rule.
Proof.
  intros a b c. eexists. split; [reflexivity|]. simpl. f_equal.
  destruct (Z.eqb_spec b a) as [->|Hba].
  - destruct (Z.eqb_spec c a) as [->|Hca]; [reflexivity|].
    now rewrite Z.eqb_refl.
  - destruct (Z.eqb_spec b c) as [->|Hbc].
    + now rewrite Z.eqb_refl.
    + destruct (Z.eqb_spec b a); [contradiction|].
      destruct (Z.eqb_spec b c); [contradiction|]. reflexivity.
Defined.

(** ** The generators with first index one, on lists *)

Section CactusFacts.
Context {Shape : Type}.
Variable f : Shape -> Shape -> Shape -> Shape.
Hypothesis f_involution : forall a b c, f a (f a b c) c = b.

Lemma cactus_one_list_involution (j : Z) (s : list Shape) :
  cactus_one_list f j (cactus_one_list f j s) = s.
Proof.
  unfold cactus_one_list. set (k := Z.to_nat (j - 1)).
  assert (length (evacuation_list f (take k s)) = length (take k s)) as Hl
    by apply evacuation_list_length.
  destruct (decide (k <= length s)%nat) as [Hk|Hk].
  - rewrite length_take_le in Hl by lia.
    rewrite take_app_length', drop_app_length' by lia.
    rewrite evacuation_list_involution by assumption.
    apply take_drop.
  - rewrite (take_ge s), (drop_ge s), app_nil_r in * by lia.
    rewrite take_ge, drop_ge, app_nil_r by lia.
    now apply evacuation_list_involution.
Qed.

Lemma cactus_list_accepts (s : list Shape) (i j : Z) :
  cactus_accepts s i j ->
  exists t, cactus_list f s i j = Ok t /\ length t = length s /\
            cactus_list f t i j = Ok s.
Proof.
  intros (Hij & Hj & Hgap). unfold size in Hj.
  assert (forall t : list Shape, length t = length s ->
            negb ((0 <? i) && (i <? j) && (j <? len t)) = false) as G.
  { intros t Ht. unfold len. rewrite Ht. fold (len s).
    destruct (Z.ltb_spec 0 i); [|lia]. destruct (Z.ltb_spec i j); [|lia].
    destruct (Z.ltb_spec j (len s)); [|lia]. reflexivity. }
  unfold cactus_list. rewrite (G s eq_refl).
  destruct (Z.eqb_spec i 1) as [->|Hi].
  - eexists. split; [reflexivity|]. split.
    + apply cactus_one_list_length.
    + rewrite G by apply cactus_one_list_length.
      now rewrite cactus_one_list_involution.
  - destruct (Z.ltb_spec (j - i) 2); [lia|].
    eexists. split; [reflexivity|]. split.
    + now rewrite !cactus_one_list_length.
    + rewrite G by now rewrite !cactus_one_list_length.
      now rewrite !cactus_one_list_involution.
Qed.
End CactusFacts.

(** ** Facts that hold for every rule *)

Section AnyRule.
Context {Shape : Type} `{EqDecision Shape}.
Variable _rule : list Shape -> exc Shape.

(** The test of [cactus] comes before everything else. *)
Lemma cactus_out_of_bounds (s : list Shape) (i j : Z) :
  negb ((0 <? i) && (i <? j) && (j <? size s)) = true ->
  cactus _rule s i j = Raise (ValueError "Integers out of bounds.").
Proof.
  intros G. unfold cactus, recursion_limit.
  change 1000%nat with (S 999). generalize 999%nat. intros d.
  cbn [cactus_rec]. now rewrite G.
Qed.

Lemma cactus_top_raises (s : list Shape) (i : Z) :
  cactus _rule s i (size s) = Raise (ValueError "Integers out of bounds.").
Proof.
  apply cactus_out_of_bounds. now rewrite Z.ltb_irrefl, andb_false_r.
Qed.

Lemma local_rule_length (s t : list Shape) (i : Z) :
  local_rule _rule s i = Ok t -> length t = length s.
Proof.
  unfold local_rule, element. destruct (negb _); [discriminate|].
  intros H. apply bind_Ok_inv in H as (v & _ & H).
  apply bind_Ok_inv in H as (r & Hr & [= <-]).
  eapply setitem_length, Hr.
Qed.

Lemma promotion_length (s t : list Shape) :
  promotion _rule s = Ok t -> length t = length s.
Proof.
  unfold promotion, element. intros H.
  apply bind_Ok_inv in H as (r & Hr & [= <-]).
  revert Hr. apply (for_each_invariant (fun r => length r = length s));
    [|reflexivity].
  intros a x a' Ha H. apply bind_Ok_inv in H as (v & _ & H).
  apply setitem_length in H. congruence.
Qed.

(** Every round of the loop of [evacuation] records one item. *)
Lemma evacuation_loop_length (xs : list Z) :
  forall (L result L' result' : list Shape),
    for_each
      (fun '(L, result) (_ : Z) =>
         T ← promotion _rule (element L);
         '(x, L) ← pop T;
         Ok (L, result ++ [x]))
      xs (L, result) = Ok (L', result') ->
    length result' = (length result + length xs)%nat.
Proof.
  induction xs as [|z xs IH]; intros L result L' result'; simpl.
  - intros [= _ <-]. lia.
  - intros H. apply bind_Ok_inv in H as ([L1 r1] & Hb & H).
    apply bind_Ok_inv in Hb as (T & _ & Hb).
    apply bind_Ok_inv in Hb as ([x L2] & _ & [= <- <-]).
    apply IH in H. rewrite H, length_app. simpl. lia.
Qed.

Lemma evacuation_length (s t : list Shape) :
  evacuation _rule s = Ok t -> length t = length s.
Proof.
  unfold evacuation, element. destruct (size s <? 3).
  - now intros [= <-].
  - intros H. apply bind_Ok_inv in H as ([L r] & Hl & [= <-]).
    apply evacuation_loop_length in Hl.
    rewrite length_reverse, Hl. unfold range.
    rewrite length_seqZ. unfold len. simpl. lia.
Qed.

Lemma cactus_rec_length (d : nat) :
  forall (s t : list Shape) (i j : Z),
    cactus_rec _rule d s i j = Ok t -> length t = length s.
Proof.
  induction d as [|d IH]; intros s t i j; [discriminate|].
  cbn [cactus_rec]. destruct (negb _) eqn:G; [discriminate|].
  apply negb_false_iff in G. apply andb_prop in G as [G Hj].
  apply andb_prop in G as [Hi Hij]. apply Z.ltb_lt in Hi, Hij, Hj.
  destruct (i =? j); [now intros [= <-]|].
  destruct (i =? 1).
  - unfold element. intros H.
    apply bind_Ok_inv in H as (e & He & [= <-]).
    apply evacuation_length in He.
    rewrite length_app, He, <- length_app.
    unfold size in Hj. rewrite slice_split by lia. reflexivity.
  - intros H. apply bind_Ok_inv in H as (a & Ha & H).
    apply bind_Ok_inv in H as (b & Hb & H).
    apply IH in Ha, Hb, H. congruence.
Qed.

Lemma cactus_length (s t : list Shape) (i j : Z) :
  cactus _rule s i j = Ok t -> length t = length s.
Proof. apply cactus_rec_length. Qed.

Lemma local_rule_outside (s : list Shape) (i : Z) :
  i <= 0 \/ size s <= i ->
  local_rule _rule s i =
  Raise (ValueError (pct_d i ++ " is not a valid integer.")).
Proof.
  intros Hi. unfold local_rule, size in *.
  destruct (Z.ltb_spec 0 i); [|reflexivity].
  destruct (Z.ltb_spec i (len s)); [lia|reflexivity].
Qed.

(** At a position with two neighbours the rule sees exactly them. *)
Lemma local_rule_window (pre rest : list Shape) (a b c : Shape) (i : Z) :
  i = len pre + 1 ->
  local_rule _rule (pre ++ a :: b :: c :: rest) i =
  (v ← _rule [a; b; c]; Ok (pre ++ a :: v :: c :: rest)).
Proof.
  intros Hi. unfold local_rule, element.
  pose proof (len_nonneg pre). pose proof (len_nonneg rest).
  destruct (Z.ltb_spec 0 i); [|lia].
  destruct (Z.ltb_spec i (len (pre ++ a :: b :: c :: rest)));
    [|rewrite len_app, !len_cons in *; lia].
  cbn [andb negb]. rewrite slice_window by assumption.
  destruct (_rule [a; b; c]) as [v|e]; [|reflexivity].
  rewrite !bind_Ok.
  replace (pre ++ a :: b :: c :: rest) with ((pre ++ [a]) ++ b :: c :: rest)
    by (rewrite <- app_assoc; reflexivity).
  rewrite setitem_middle by (rewrite len_app; unfold len in *; simpl; lia).
  rewrite bind_Ok, <- app_assoc. reflexivity.
Qed.

(** X16.  At the last position the test of [local_rule] passes and the
    rule is handed the slice of the last two items only; the call returns
    or raises as the rule does on that slice. *)
Lemma local_rule_last (pre : list Shape) (a b : Shape) (i : Z) :
  i = len pre + 1 ->
  local_rule _rule (pre ++ [a; b]) i =
  (v ← _rule [a; b]; Ok (pre ++ [a; v])).
Proof.
  intros Hi. unfold local_rule, element.
  pose proof (len_nonneg pre) as Hp.
  assert (len (pre ++ [a; b]) = len pre + 2) as Hl
    by (rewrite len_app; reflexivity).
  rewrite Hl.
  destruct (Z.ltb_spec 0 i); [|lia].
  destruct (Z.ltb_spec i (len pre + 2)); [|lia].
  cbn [andb negb].
  assert (slice (pre ++ [a; b]) (i - 1) (i + 2) = [a; b]) as ->.
  { unfold slice, slice_bound. rewrite Hl.
    destruct (Z.ltb_spec (i - 1) 0); [lia|].
    destruct (Z.ltb_spec (i + 2) 0); [lia|].
    rewrite (Z.min_l (i - 1)), (Z.min_r (i + 2)) by lia.
    replace (Z.to_nat (i - 1)) with (length pre) by (unfold len in *; lia).
    replace (Z.to_nat (len pre + 2 - (i - 1))) with 2%nat by lia.
    now rewrite drop_app_length. }
  destruct (_rule [a; b]) as [v|e]; [|reflexivity].
  rewrite !bind_Ok.
  replace (pre ++ [a; b]) with ((pre ++ [a]) ++ [b])
    by (rewrite <- app_assoc; reflexivity).
  rewrite setitem_middle by (rewrite len_app; unfold len in *; simpl; lia).
  rewrite bind_Ok, <- app_assoc. reflexivity.
Qed.
End AnyRule.

(** ** [local_rule] on the store *)

Section StoreFacts.
Context {Shape : Type}.
Variable _rule : list Shape -> exc Shape.

(** A call that returns allocates three objects (the copy, which is
    then updated in place, the slice and the new element) and writes to
    no object that was there before. *)
Lemma store_local_rule_run (h : list (list Shape)) (self : nat)
    (s s' : list Shape) (i : Z) :
  h !! self = Some s ->
  local_rule _rule s i = Ok s' ->
  Store.local_rule _rule self i h =
  Ok ((length h + 2)%nat, h ++ [s'; slice s (i - 1) (i + 2); s']).
Proof.
  intros Hself Hpure. unfold local_rule, element in Hpure.
  unfold Store.local_rule, mbind, Store.st_bind, Store.read.
  rewrite Hself. destruct (negb _); [discriminate|].
  apply bind_Ok_inv in Hpure as (v & Hv & Hpure).
  apply bind_Ok_inv in Hpure as (r & Hr & [= <-]).
  unfold Store.new at 1 2. rewrite length_app. cbn [length].
  assert (((h ++ [s]) ++ [slice s (i - 1) (i + 2)]) !! (length h + 1)%nat
          = Some (slice s (i - 1) (i + 2))) as ->.
  { rewrite <- app_assoc. rewrite lookup_app_r by lia.
    replace (length h + 1 - length h)%nat with 1%nat by lia. reflexivity. }
  unfold Store.lift. rewrite Hv. unfold Store.write.
  assert (((h ++ [s]) ++ [slice s (i - 1) (i + 2)]) !! length h = Some s)
    as ->.
  { rewrite <- app_assoc. rewrite lookup_app_r by lia.
    now rewrite Nat.sub_diag. }
  rewrite Hr.
  assert (<[length h := r]> ((h ++ [s]) ++ [slice s (i - 1) (i + 2)])
          = h ++ [r; slice s (i - 1) (i + 2)]) as ->.
  { rewrite <- app_assoc.
    replace (length h) with (length h + 0)%nat at 1 by lia.
    now rewrite insert_app_r. }
  assert ((h ++ [r; slice s (i - 1) (i + 2)]) !! length h = Some r) as ->.
  { rewrite lookup_app_r by lia. now rewrite Nat.sub_diag. }
  unfold Store.new. rewrite length_app, <- app_assoc. cbn [length app].
  reflexivity.
Qed.
End StoreFacts.

(** ** The cylindrical diagram *)

Section DiagramFacts.
Context {Shape : Type}.
Variable _rule : list Shape -> exc Shape.
Hypothesis rule_ok : rule_returns _rule.

Local Abbreviation f := (rule3 _rule).

Lemma diagram_rows_length (k m : nat) (T : list Shape) :
  length (diagram_rows f k m T) = m.
Proof.
  revert k T. induction m as [|m IH]; intros k T; simpl; [reflexivity|].
  now rewrite IH.
Qed.

Lemma diagram_rows_lookup (m : nat) :
  forall (k i : nat) (T : list Shape), (i < m)%nat ->
    diagram_rows f k m T !! i =
    Some (replicate (k + i) None ++ (Some <$> Nat.iter i (promotion_list f) T)).
Proof.
  induction m as [|m IH]; intros k i T Hi; [lia|].
  destruct i as [|i]; simpl.
  - now rewrite Nat.add_0_r.
  - rewrite IH by lia. rewrite Nat.add_succ_r.
    now rewrite <- Nat.iter_swap.
Qed.

Lemma promotion_iter_eq (n : nat) (s : list Shape) :
  promotion_iter _rule n s = Ok (Nat.iter n (promotion_list f) s).
Proof.
  induction n as [|n IH]; simpl; [reflexivity|].
  rewrite IH, bind_Ok. now apply promotion_eq.
Qed.

(** The loop of [cylindrical_diagram], with rows [0 .. k - 1] written
    and [m] rows still to write. *)
Lemma diagram_loop (m : nat) :
  forall (k : nat) (done junk : list (list (option Shape))) (T : list Shape),
    length done = k -> length junk = m ->
    exists T',
      for_each
        (fun '(result, T) i =>
           result ← setitem result i (times None i ++ (Some <$> T));
           T ← promotion _rule T;
           Ok (result, T))
        (seqZ (Z.of_nat k) (Z.of_nat m)) (done ++ junk, T)
      = Ok (done ++ diagram_rows f k m T, T').
Proof.
  induction m as [|m IH]; intros k done junk T Hk Hm.
  - destruct junk; [|discriminate]. exists T. reflexivity.
  - destruct junk as [|r junk]; [discriminate|].
    injection Hm as Hm.
    rewrite seqZ_cons by lia. cbn [for_each diagram_rows].
    rewrite setitem_middle by (unfold len; congruence).
    rewrite bind_Ok, promotion_eq, !bind_Ok by assumption.
    unfold times. rewrite Nat2Z.id.
    replace (Z.succ (Z.of_nat k)) with (Z.of_nat (S k)) by lia.
    replace (Z.pred (Z.of_nat (S m))) with (Z.of_nat m) by lia.
    set (row := replicate k None ++ (Some <$> T)).
    destruct (IH (S k) (done ++ [row]) junk (promotion_list f T))
      as [T' HT']; [rewrite length_app; simpl; lia | assumption |].
    exists T'. rewrite <- !app_assoc in HT'. exact HT'.
Qed.

Lemma cylindrical_diagram_eq (s : list Shape) :
  cylindrical_diagram _rule s = Ok (diagram_rows f 0 (length s) s).
Proof.
  unfold cylindrical_diagram, range. rewrite Z.sub_0_r.
  set (blank := times (times None (2 * len s - 1)) (len s)).
  destruct (diagram_loop (length s) 0 [] blank s) as [T' HT'];
    [reflexivity | unfold blank, times, len;
                   now rewrite length_replicate, Nat2Z.id |].
  change (seqZ 0 (len s)) with (seqZ (Z.of_nat 0) (Z.of_nat (length s))).
  change (blank, s) with ([] ++ blank, s).
  rewrite HT'. reflexivity.
Qed.
End DiagramFacts.

(** ** The involutions and the checks of the module *)

Section Checks.
Context {Shape : Type} `{EqDecision Shape}.
Variable _rule : list Shape -> exc Shape.
Hypothesis contract : involution_contract _rule.

Lemma local_rule_pair (s : list Shape) (i : Z) :
  interior s i ->
  exists t, local_rule _rule s i = Ok t /\ local_rule _rule t i = Ok s.
Proof.
  intros Hi.
  destruct (window_split s i Hi) as (pre & a & b & c & rest & -> & Hpre).
  destruct (contract a b c) as (b' & Hb & Hb').
  exists (pre ++ a :: b' :: c :: rest).
  rewrite !local_rule_window by lia. now rewrite Hb, Hb'.
Qed.

Lemma cactus_pair (s : list Shape) (i j : Z) :
  cactus_accepts s i j ->
  exists t, cactus _rule s i j = Ok t /\ cactus _rule t i j = Ok s.
Proof.
  intros Hacc. pose proof (contract_returns _ contract) as Hret.
  destruct (cactus_list_accepts _ (rule3_involution _ contract) s i j Hacc)
    as (t & Ht & _ & Hback).
  exists t. now rewrite !(cactus_eq _ Hret).
Qed.

(** A sweep of checks that all succeed. *)
Lemma for_each_all_true {B : Type} (body : bool -> B -> exc bool)
    (xs : list B) :
  (forall x, x ∈ xs -> body true x = Ok true) ->
  for_each body xs true = Ok true.
Proof.
  induction xs as [|x xs IH]; intros H; [reflexivity|].
  cbn [for_each]. rewrite H by apply list_elem_of_here.
  rewrite bind_Ok. apply IH. intros y Hy. apply H.
  now apply list_elem_of_further.
Qed.

Lemma mapM_all_true {B : Type} (g : B -> exc bool) (xs : list B) :
  (forall x, x ∈ xs -> g x = Ok true) ->
  mapM g xs = Ok (replicate (length xs) true).
Proof.
  induction xs as [|x xs IH]; intros H; [reflexivity|].
  cbn [mapM]. rewrite H by apply list_elem_of_here.
  rewrite bind_Ok, IH; [reflexivity|].
  intros y Hy. apply H. now apply list_elem_of_further.
Qed.

(** X19.  Under the contract [check_involution_rule] returns [True]. *)
Lemma check_involution_rule_true (s : list Shape) :
  check_involution_rule _rule s = Ok true.
Proof.
  unfold check_involution_rule. rewrite for_each_all_true; [reflexivity|].
  intros i Hi. unfold range in Hi. apply elem_of_seqZ in Hi.
  destruct (local_rule_pair s (i + 1)) as (t & -> & Ht);
    [unfold interior; lia|].
  rewrite bind_Ok, Ht, bind_Ok. now rewrite bool_decide_eq_true_2.
Qed.

(** X20.  Under the contract [check_involution_cactus] returns [True]. *)
Lemma check_involution_cactus_true (s : list Shape) :
  check_involution_cactus _rule s = Ok true.
Proof.
  unfold check_involution_cactus. rewrite mapM_all_true.
  - rewrite bind_Ok. f_equal.
    induction (length (range 2 (size s))) as [|n IH]; [reflexivity|].
    exact IH.
  - intros i Hi. unfold range in Hi. apply elem_of_seqZ in Hi.
    destruct (cactus_pair s 1 i) as (t & -> & Ht);
      [unfold cactus_accepts; lia|].
    rewrite bind_Ok, Ht, bind_Ok. now rewrite bool_decide_eq_true_2.
Qed.
End Checks.

(** * The claims *)

Section Claims.
Context {Shape : Type} `{EqDecision Shape}.
Variable _rule : list Shape -> exc Shape.

Local Abbreviation f := (rule3 _rule).
Local Abbreviation out_of_bounds := (ValueError "Integers out of bounds.").

(** C1.  When does [cactus] raise?  Not exactly outside
    [0 < i < j <= size s]: it returns on the pairs of [cactus_accepts]
    and raises [ValueError] on every other pair.  Two families of pairs
    inside [0 < i < j <= size s] are among those: [(i, size s)], which
    the test of [cactus] turns down, and [(i, i + 1)] with [2 <= i],
    whose nested call [cactus(1, 1)] is turned down by the same test. *)
Theorem cactus_raises_iff :
  rule_returns _rule ->
  forall (s : list Shape) (i j : Z),
    (cactus_accepts s i j -> exists t, cactus _rule s i j = Ok t) /\
    (~ cactus_accepts s i j -> cactus _rule s i j = Raise out_of_bounds) /\
    cactus _rule s i (size s) = Raise out_of_bounds /\
    (2 <= i -> cactus _rule s i (i + 1) = Raise out_of_bounds).
Proof.
  intros Hret s i j. rewrite !(cactus_eq _ Hret). repeat split.
  - apply cactus_list_returns.
  - apply cactus_list_rejects.
  - unfold cactus_list, size.
    now rewrite Z.ltb_irrefl, andb_false_r.
  - intros Hi. unfold cactus_list.
    destruct (negb _); [reflexivity|].
    destruct (Z.eqb_spec i 1); [lia|].
    destruct (Z.ltb_spec (i + 1 - i) 2); [reflexivity|lia].
Qed.

(** C2.  [check_promotion] never returns a boolean: its first call of
    [cactus] has second index [size s], so whenever [promotion] returns
    the check raises the [ValueError] of the test of [cactus]. *)
Theorem check_promotion_raises (s : list Shape) :
  exists e, check_promotion _rule s = Raise e /\
    (forall p, promotion _rule s = Ok p -> e = out_of_bounds).
Proof.
  unfold check_promotion. destruct (promotion _rule s) as [p|e].
  - rewrite bind_Ok, cactus_top_raises. eauto.
  - exists e. split; [reflexivity | discriminate].
Qed.

(** C3.  [cactus(i, i)] raises [ValueError] for every [i] and every
    sequence: the test [0 < i < j < size] fails when [i = j], so the
    branch that returns the sequence unchanged is never reached. *)
Theorem cactus_equal_indices_raises (s : list Shape) (i : Z) :
  cactus _rule s i i = Raise out_of_bounds.
Proof.
  apply cactus_out_of_bounds. now rewrite Z.ltb_irrefl, andb_false_r.
Qed.

(** C4.  Applying [cactus(i, j)] twice: under the involution contract
    the original sequence comes back on every pair of [cactus_accepts],
    and on every other pair, [(i, size s)] and [(i, i + 1)] with
    [2 <= i] among them, the first application already raises. *)
Theorem cactus_twice :
  involution_contract _rule ->
  forall (s : list Shape) (i j : Z),
    (cactus_accepts s i j ->
     (t ← cactus _rule s i j; cactus _rule t i j) = Ok s) /\
    (~ cactus_accepts s i j ->
     (t ← cactus _rule s i j; cactus _rule t i j) = Raise out_of_bounds).
Proof.
  intros Hc s i j. split.
  - intros Hacc. destruct (cactus_pair _ Hc s i j Hacc) as (t & -> & Ht).
    now rewrite bind_Ok.
  - intros Hn.
    now rewrite (cactus_eq _ (contract_returns _ Hc)), cactus_list_rejects.
Qed.

(** C5.  Under the involution contract, evacuation is an involution on
    sequences of size at least three and the identity on shorter
    ones. *)
Theorem evacuation_involution :
  involution_contract _rule ->
  forall s : list Shape,
    (3 <= size s -> (e ← evacuation _rule s; evacuation _rule e) = Ok s) /\
    (size s < 3 -> evacuation _rule s = Ok s).
Proof.
  intros Hc s. pose proof (contract_returns _ Hc) as Hret. split.
  - intros _. rewrite (evacuation_eq _ Hret), bind_Ok, (evacuation_eq _ Hret).
    now rewrite (evacuation_list_involution _ (rule3_involution _ Hc)).
  - intros Hs. unfold evacuation.
    destruct (Z.ltb_spec (size s) 3); [reflexivity|lia].
Qed.

(** C6.  Under the involution contract, applying [local_rule] twice at
    an interior position gives the sequence back.  On the store, both
    calls leave every object that existed before them as it was, the
    argument included: the results are new objects. *)
Theorem local_rule_involution :
  involution_contract _rule ->
  forall (s : list Shape) (i : Z),
    interior s i ->
    (t ← local_rule _rule s i; local_rule _rule t i) = Ok s /\
    forall (h : list (list Shape)) (self : nat),
      h !! self = Some s ->
      exists t r1 h1 r2 h2,
        local_rule _rule s i = Ok t /\
        Store.local_rule _rule self i h = Ok (r1, h1) /\
        h1 !! r1 = Some t /\
        Store.local_rule _rule r1 i h1 = Ok (r2, h2) /\
        h2 !! r2 = Some s /\
        h2 !! r1 = Some t /\
        (forall r l, h !! r = Some l -> h1 !! r = Some l /\ h2 !! r = Some l).
Proof.
  intros Hc s i Hi.
  destruct (local_rule_pair _ Hc s i Hi) as (t & H1 & H2).
  split; [now rewrite H1, bind_Ok|].
  intros h self Hself.
  pose proof (store_local_rule_run _ h self _ _ i Hself H1) as R1.
  set (h1 := h ++ [t; slice s (i - 1) (i + 2); t]) in *.
  assert (h1 !! (length h + 2)%nat = Some t) as L1.
  { unfold h1. rewrite lookup_app_r by lia.
    replace (length h + 2 - length h)%nat with 2%nat by lia. reflexivity. }
  pose proof (store_local_rule_run _ h1 _ _ _ i L1 H2) as R2.
  eexists _, _, _, _, _. repeat split; try eassumption.
  - rewrite lookup_app_r by lia.
    replace (length h1 + 2 - length h1)%nat with 2%nat by lia. reflexivity.
  - now apply lookup_app_l_Some.
  - now apply lookup_app_l_Some.
  - now do 2 apply lookup_app_l_Some.
Qed.

(** C7, as amended.  [local_rule] raises a [ValueError] whose message
    names [i] whenever [i <= 0] or [size s <= i].  At an interior [i] it
    hands the three items at [i - 1], [i], [i + 1] to the rule and
    returns the sequence with the item at [i] replaced by what the rule
    returns. *)
Theorem local_rule_spec (s : list Shape) (i : Z) :
  (i <= 0 \/ size s <= i ->
   local_rule _rule s i =
   Raise (ValueError (pct_d i ++ " is not a valid integer."))) /\
  (interior s i ->
   exists a b c,
     s !! Z.to_nat (i - 1) = Some a /\ s !! Z.to_nat i = Some b /\
     s !! Z.to_nat (i + 1) = Some c /\
     local_rule _rule s i =
     (v ← _rule [a; b; c]; Ok (<[Z.to_nat i := v]> s))).
Proof.
  split; [apply local_rule_outside|].
  intros Hi.
  destruct (window_split s i Hi) as (pre & a & b & c & rest & -> & Hpre).
  assert (Z.to_nat (i - 1) = length pre) as E0 by (unfold len in Hpre; lia).
  assert (Z.to_nat i = S (length pre)) as E1 by (unfold len in Hpre; lia).
  assert (Z.to_nat (i + 1) = S (S (length pre))) as E2
    by (unfold len in Hpre; lia).
  exists a, b, c. rewrite E0, E1, E2. repeat split.
  - now rewrite list_lookup_middle.
  - rewrite lookup_app_r by lia.
    now replace (S (length pre) - length pre)%nat with 1%nat by lia.
  - rewrite lookup_app_r by lia.
    now replace (S (S (length pre)) - length pre)%nat with 2%nat by lia.
  - rewrite local_rule_window by lia.
    destruct (_rule [a; b; c]) as [v|e]; [|reflexivity].
    rewrite !bind_Ok. do 2 f_equal.
    replace (S (length pre)) with (length pre + 1)%nat by lia.
    now rewrite insert_app_r.
Qed.

(** C8, as amended.  [cylindrical_diagram] returns a table with one row
    for each item of the sequence; row [i] is [i] placeholders followed
    by the sequence promoted [i] times, so its length is [size s + i]
    (not [2 * size s - 1]); row [0] is the sequence itself. *)
Theorem cylindrical_diagram_rows :
  rule_returns _rule ->
  forall s : list Shape,
    exists table,
      cylindrical_diagram _rule s = Ok table /\
      length table = length s /\
      (forall i : nat, (i < length s)%nat ->
         exists T row,
           promotion_iter _rule i s = Ok T /\
           row = times None (Z.of_nat i) ++ (Some <$> T) /\
           table !! i = Some row /\
           length row = (length s + i)%nat) /\
      (s <> [] -> table !! 0%nat = Some (Some <$> s)).
Proof.
  intros Hret s. exists (diagram_rows f 0 (length s) s).
  split; [now apply cylindrical_diagram_eq|].
  split; [apply diagram_rows_length|]. split.
  - intros i Hi.
    exists (Nat.iter i (promotion_list f) s). eexists.
    split; [now apply promotion_iter_eq|]. split; [reflexivity|].
    unfold times. rewrite Nat2Z.id. split.
    + now rewrite diagram_rows_lookup.
    + rewrite length_app, length_replicate, length_fmap.
      assert (length (Nat.iter i (promotion_list f) s) = length s) as ->; [|lia].
      clear Hi. induction i as [|i IH]; [reflexivity|].
      simpl. now rewrite promotion_list_length.
  - intros Hs. rewrite diagram_rows_lookup
      by (destruct s; [congruence | simpl; lia]).
    reflexivity.
Qed.

(** C9.  [orbit] never returns a set.  Its first sweep starts with the
    call [cactus(1, 1)], which raises [ValueError]; on the empty
    sequence that call is not made and the name [orbit], which is not
    bound in the module, raises [NameError]. *)
Theorem orbit_raises (fuel : nat) (s : list Shape) :
  orbit _rule (S fuel) s =
  Some (Raise (match s with
               | [] => NameError "orbit"
               | _ :: _ => out_of_bounds
               end)).
Proof.
  unfold orbit. cbn [orbit_while].
  rewrite bool_decide_eq_false_2 by discriminate.
  unfold orbit_sweep. cbn [for_each].
  destruct s as [|a s]; [reflexivity|].
  unfold range, size.
  rewrite seqZ_cons by (rewrite len_cons; pose proof (len_nonneg s); lia).
  cbn [for_each]. rewrite cactus_out_of_bounds; reflexivity.
Qed.

(** C10.  Whatever a call of [local_rule], [promotion], [evacuation] or
    [cactus] returns has the size of the sequence it was called on; and
    when the rule returns on triples, the calls do return: always for
    [promotion] and [evacuation], at interior positions for
    [local_rule], on the pairs of [cactus_accepts] for [cactus]. *)
Theorem operators_preserve_size (s : list Shape) :
  (forall t : list Shape,
     (exists i, local_rule _rule s i = Ok t) \/
     promotion _rule s = Ok t \/
     evacuation _rule s = Ok t \/
     (exists i j, cactus _rule s i j = Ok t) ->
     size t = size s) /\
  (rule_returns _rule ->
     (forall i, interior s i -> exists t, local_rule _rule s i = Ok t) /\
     (exists t, promotion _rule s = Ok t) /\
     (exists t, evacuation _rule s = Ok t) /\
     (forall i j, cactus_accepts s i j -> exists t, cactus _rule s i j = Ok t)).
Proof.
  split.
  - intros t H. unfold size, len. f_equal.
    destruct H as [[i H]|[H|[H|(i & j & H)]]].
    + eapply local_rule_length, H.
    + eapply promotion_length, H.
    + eapply evacuation_length, H.
    + eapply cactus_length, H.
  - intros Hret. repeat split.
    + intros i Hi.
      destruct (window_split s i Hi) as (pre & a & b & c & rest & -> & Hpre).
      rewrite local_rule_window by lia.
      destruct (Hret a b c) as [v ->]. eauto.
    + rewrite promotion_eq by assumption. eauto.
    + rewrite evacuation_eq by assumption. eauto.
    + intros i j Hacc. rewrite cactus_eq by assumption.
      now apply cactus_list_returns.
Qed.
End Claims.

(** * The claims on concrete sequences *)

(** [cactus] with the rule [a + c - b]: the pair [(2, 3)] on four items
    and the pair [(1, 3)] on three items raise, the pair [(1, 3)] on
    four items returns. *)
Lemma cactus_raises_iff_witness :
  cactus diff_rule [0; 1; 2; 3] 2 3 = Raise (ValueError "Integers out of bounds.")
  /\ cactus diff_rule [0; 1; 2] 1 3 = Raise (ValueError "Integers out of bounds.")
  /\ exists t, cactus diff_rule [0; 1; 2; 3] 1 3 = Ok t.
Proof.
  assert (rule_returns diff_rule) as Hret
    by (intros a b c; eexists; reflexivity).
  split; [|split].
  - apply (cactus_raises_iff diff_rule Hret [0; 1; 2; 3] 2 3). lia.
  - apply (cactus_raises_iff diff_rule Hret [0; 1; 2] 1 3).
  - apply (cactus_raises_iff diff_rule Hret [0; 1; 2; 3] 1 3).
    unfold cactus_accepts, size, len. simpl. lia.
Defined.

Lemma check_promotion_raises_witness :
  check_promotion diff_rule [1; 5; 2] =
  Raise (ValueError "Integers out of bounds.").
Proof.
  destruct (check_promotion_raises diff_rule [1; 5; 2]) as (e & -> & He).
  f_equal. apply (He [1; -2; 2]). reflexivity.
Defined.

Lemma cactus_twice_witness :
  (t ← cactus toggle_rule [1; 1; 2; 5; 4; 1; 7; 7; 3] 3 8;
   cactus toggle_rule t 3 8) = Ok [1; 1; 2; 5; 4; 1; 7; 7; 3]
  /\ (t ← cactus toggle_rule [0; 1; 2; 3] 2 3; cactus toggle_rule t 2 3)
     = Raise (ValueError "Integers out of bounds.").
Proof.
  split.
  - apply (cactus_twice toggle_rule toggle_rule_contract).
    unfold cactus_accepts, size, len. simpl. lia.
  - apply (cactus_twice toggle_rule toggle_rule_contract).
    unfold cactus_accepts, size, len. simpl. lia.
Defined.

Lemma evacuation_involution_witness :
  (e ← evacuation toggle_rule [1; 1; 2; 5; 4; 1; 7]; evacuation toggle_rule e)
  = Ok [1; 1; 2; 5; 4; 1; 7]
  /\ evacuation toggle_rule [1; 2] = Ok [1; 2].
Proof.
  split.
  - apply (evacuation_involution toggle_rule toggle_rule_contract).
    unfold size, len. simpl. lia.
  - apply (evacuation_involution toggle_rule toggle_rule_contract).
    unfold size, len. simpl. lia.
Defined.

Lemma local_rule_involution_witness :
  interior [1; 5; 2] 1
  /\ (t ← local_rule diff_rule [1; 5; 2] 1; local_rule diff_rule t 1)
     = Ok [1; 5; 2].
Proof.
  assert (interior [1; 5; 2] 1) as Hi
    by (unfold interior, size, len; simpl; lia).
  split; [exact Hi|].
  apply (local_rule_involution diff_rule diff_rule_contract [1; 5; 2] 1 Hi).
Defined.

Lemma local_rule_spec_witness :
  local_rule diff_rule [1; 5; 2] 3 =
  Raise (ValueError (pct_d 3 ++ " is not a valid integer."))
  /\ exists a b c,
       [1; 5; 2] !! Z.to_nat (1 - 1) = Some a /\
       [1; 5; 2] !! Z.to_nat 1 = Some b /\
       [1; 5; 2] !! Z.to_nat (1 + 1) = Some c /\
       local_rule diff_rule [1; 5; 2] 1 =
       (v ← diff_rule [a; b; c]; Ok (<[Z.to_nat 1 := v]> [1; 5; 2])).
Proof.
  split.
  - apply (local_rule_spec diff_rule [1; 5; 2] 3).
    unfold size, len. simpl. lia.
  - apply (local_rule_spec diff_rule [1; 5; 2] 1).
    unfold interior, size, len. simpl. lia.
Defined.

Lemma cylindrical_diagram_rows_witness :
  exists table,
    cylindrical_diagram diff_rule [1; 5; 2] = Ok table /\
    length table = 3%nat.
Proof.
  assert (rule_returns diff_rule) as Hret
    by (intros a b c; eexists; reflexivity).
  destruct (cylindrical_diagram_rows diff_rule Hret [1; 5; 2])
    as (table & Ht & Hlen & _).
  exists table. split; assumption.
Defined.

Lemma operators_preserve_size_witness :
  size [1; -2; 3; 0; 4] = size [1; 5; 2; 7; 4]
  /\ exists t, evacuation diff_rule [1; 5; 2; 7; 4] = Ok t.
Proof.
  split.
  - apply (operators_preserve_size diff_rule [1; 5; 2; 7; 4]).
    right. left. reflexivity.
  - apply (operators_preserve_size diff_rule [1; 5; 2; 7; 4]).
    intros a b c. eexists. reflexivity.
Defined.

(** C7 as stated fails: at the position [0], which is not interior, the
    exception is a [ValueError], not an [IndexError]; and at the last
    position, which is not interior either, a rule that accepts a slice
    of two items makes the call return. *)
Lemma local_rule_claim_counterexample :
  ~ interior [7] 0
  /\ local_rule diff_rule [7] 0 = Raise (ValueError "0 is not a valid integer.")
  /\ (forall msg, local_rule diff_rule [7] 0 <> Raise (IndexError msg))
  /\ involution_contract sum_rule
  /\ ~ interior [1; 5; 2] 2
  /\ local_rule sum_rule [1; 5; 2] 2 = Ok [1; 5; 7].
Proof.
  split; [unfold interior, size, len; simpl; lia|].
  split; [reflexivity|].
  split; [intros msg; vm_compute; discriminate|].
  split; [exact sum_rule_contract|].
  split; [unfold interior, size, len; simpl; lia | reflexivity].
Qed.

(** C8 as stated fails: on three items the rows have lengths three, four
    and five, not five each. *)
Lemma cylindrical_diagram_width_counterexample :
  cylindrical_diagram diff_rule [1; 5; 2] =
  Ok [[Some 1; Some 5; Some 2];
      [None; Some 1; Some (-2); Some 2];
      [None; None; Some 1; Some 5; Some 2]]
  /\ length [Some 1; Some 5; Some 2] <> Z.to_nat (2 * size [1; 5; 2] - 1).
Proof.
  split; [reflexivity|]. vm_compute. lia.
Qed.

(** * Further properties of the methods *)

(** ** Loops *)

Lemma bind_ret {A : Type} (m : exc A) : (m ≫= Ok) = m.
Proof. destruct m; reflexivity. Qed.

Lemma for_each_app {A B : Type} (body : A -> B -> exc A) (xs ys : list B)
    (acc : A) :
  for_each body (xs ++ ys) acc = (a ← for_each body xs acc; for_each body ys a).
Proof.
  revert acc. induction xs as [|x xs IH]; intros acc; [reflexivity|].
  cbn [app for_each]. destruct (body acc x) as [a|e]; [|reflexivity].
  rewrite !bind_Ok. apply IH.
Qed.

(** Two loop bodies that agree on the states and items that occur. *)
Lemma for_each_ext_inv {A B : Type} (P : A -> Prop)
    (body1 body2 : A -> B -> exc A) (xs : list B) :
  (forall a x a', P a -> x ∈ xs -> body1 a x = Ok a' -> P a') ->
  (forall a x, P a -> x ∈ xs -> body1 a x = body2 a x) ->
  forall acc, P acc -> for_each body1 xs acc = for_each body2 xs acc.
Proof.
  induction xs as [|x xs IH]; intros Hstep Heq acc Hacc; [reflexivity|].
  cbn [for_each]. rewrite <- (Heq acc x Hacc) by apply list_elem_of_here.
  destruct (body1 acc x) as [a|e] eqn:E; [|reflexivity].
  rewrite !bind_Ok. apply IH.
  - intros a0 y a' Ha Hy. apply Hstep; [assumption|].
    now apply list_elem_of_further.
  - intros a0 y Ha Hy. apply Heq; [assumption|].
    now apply list_elem_of_further.
  - eapply Hstep; [exact Hacc | apply list_elem_of_here | exact E].
Qed.

(** A loop whose steps are involutions is undone by the loop over the
    reversed list. *)
Lemma for_each_reverse_undo {A B : Type} (P : A -> Prop)
    (g : A -> B -> exc A) (xs : list B) :
  (forall a x a', P a -> x ∈ xs -> g a x = Ok a' -> P a' /\ g a' x = Ok a) ->
  forall acc r, P acc -> for_each g xs acc = Ok r ->
                for_each g (reverse xs) r = Ok acc.
Proof.
  induction xs as [|x xs IH]; intros Hinv acc r Hacc.
  - now intros [= <-].
  - cbn [for_each]. intros H. apply bind_Ok_inv in H as (a1 & H1 & Hr).
    destruct (Hinv acc x a1 Hacc (list_elem_of_here _ _) H1) as [Ha1 Hback].
    rewrite reverse_cons, for_each_app.
    rewrite (IH (fun a y a' Ha Hy => Hinv a y a' Ha (list_elem_of_further _ _ _ Hy))
                a1 r Ha1 Hr).
    rewrite bind_Ok. cbn [for_each]. now rewrite Hback.
Qed.

Lemma getitem_head {A : Type} (l : list A) :
  getitem l 0 = match l with
                | [] => Raise (IndexError "list index out of range")
                | x :: _ => Ok x
                end.
Proof. destruct l; reflexivity. Qed.

Lemma getitem_last {A : Type} (l : list A) :
  getitem l (-1) = match last l with
                   | None => Raise (IndexError "list index out of range")
                   | Some x => Ok x
                   end.
Proof.
  unfold getitem. rewrite last_lookup.
  destruct l as [|x l]; [reflexivity|].
  change (-1 <? 0) with true. cbn iota.
  replace (-1 + len (x :: l)) with (len l) by (rewrite len_cons; lia).
  destruct (Z.leb_spec 0 (len l)) as [_|Hn]; [|pose proof (len_nonneg l); lia].
  unfold len. rewrite Nat2Z.id. reflexivity.
Qed.

(** ** What a call that returns has computed, for any rule *)

Section Returned.
Context {Shape : Type} `{EqDecision Shape}.
Variable _rule : list Shape -> exc Shape.

Local Abbreviation f := (rule3 _rule).

Lemma rule3_of_Ok (a b c v : Shape) : _rule [a; b; c] = Ok v -> v = f a b c.
Proof. intros H. unfold rule3. now rewrite H. Qed.

Lemma promotion_loop_Ok (l pre : list Shape) (p x : Shape) (r : list Shape) :
  for_each
    (fun result i => v ← _rule (slice result (i - 1) (i + 2));
                     setitem result i v)
    (seqZ (len pre + 1) (len l)) (pre ++ p :: l ++ [x]) = Ok r ->
  r = pre ++ p :: sweep f p l x ++ [x].
Proof.
  revert pre p. induction l as [|b l IH]; intros pre p.
  - now intros [= <-].
  - rewrite len_cons, seqZ_cons by (pose proof (len_nonneg l); lia).
    assert (exists rest, l ++ [x] = hd x l :: rest) as [rest E]
      by (destruct l; simpl; eauto).
    cbn [for_each sweep]. rewrite <- app_comm_cons, E.
    rewrite slice_window by reflexivity.
    intros H. apply bind_Ok_inv in H as (r1 & H1 & H).
    apply bind_Ok_inv in H1 as (v & Hv & H1).
    apply rule3_of_Ok in Hv. subst v.
    replace (pre ++ p :: b :: hd x l :: rest)
      with ((pre ++ [p]) ++ b :: hd x l :: rest) in H1
      by (rewrite <- app_assoc; reflexivity).
    rewrite setitem_middle in H1 by (rewrite len_app; reflexivity).
    injection H1 as <-. rewrite <- E in H.
    replace (Z.succ (len pre + 1)) with (len (pre ++ [p]) + 1) in H
      by (rewrite len_app; unfold len; simpl; lia).
    replace (Z.pred (len l + 1)) with (len l) in H by lia.
    apply IH in H. rewrite H, <- app_assoc. reflexivity.
Qed.

Lemma promotion_Ok (s t : list Shape) :
  promotion _rule s = Ok t -> t = promotion_list f s.
Proof.
  unfold promotion, element, range. intros H.
  apply bind_Ok_inv in H as (r & H & [= <-]).
  destruct s as [|x u _] using rev_ind; [now injection H as <-|].
  rewrite promotion_list_snoc. destruct u as [|a l]; [now injection H as <-|].
  replace (len ((a :: l) ++ [x]) - 1 - 1) with (len l) in H
    by (rewrite len_app, len_cons; unfold len; simpl; lia).
  exact (promotion_loop_Ok l [] a x r H).
Qed.

Lemma evacuation_loop_Ok (xs : list Z) :
  forall (L result L' result' : list Shape),
    length xs = length L ->
    for_each
      (fun '(L, result) (_ : Z) =>
         T ← promotion _rule (element L);
         '(x, L) ← pop T;
         Ok (L, result ++ [x]))
      xs (L, result) = Ok (L', result') ->
    result' = result ++ reverse (evacuation_list f L).
Proof.
  induction xs as [|z xs IH]; intros L result L' result' Hlen.
  - destruct L; [|discriminate]. intros [= _ <-]. now rewrite app_nil_r.
  - destruct L as [|x t _] using rev_ind; [discriminate|].
    rewrite length_app in Hlen. simpl in Hlen.
    cbn [for_each]. unfold element. intros H.
    apply bind_Ok_inv in H as ([L1 r1] & H1 & H).
    apply bind_Ok_inv in H1 as (T & HT & H1).
    apply promotion_Ok in HT. subst T.
    rewrite promotion_list_snoc, pop_snoc, bind_Ok in H1.
    injection H1 as <- <-.
    apply IH in H; [|rewrite promotion_init_length; lia].
    rewrite H, evacuation_list_snoc, reverse_snoc, <- app_assoc.
    reflexivity.
Qed.

Lemma evacuation_Ok (s t : list Shape) :
  evacuation _rule s = Ok t -> t = evacuation_list f s.
Proof.
  unfold evacuation, size, element.
  destruct (Z.ltb_spec (len s) 3) as [Hs|Hs].
  - intros [= <-]. symmetry. apply evacuation_list_short.
    unfold len in Hs. lia.
  - intros H. apply bind_Ok_inv in H as ([L r] & H & [= <-]).
    apply evacuation_loop_Ok in H.
    + rewrite H. simpl. apply reverse_involutive.
    + unfold range. rewrite length_seqZ. unfold len. lia.
Qed.

Lemma cactus_rec_one_Ok (d : nat) (s t : list Shape) (j : Z) :
  cactus_rec _rule (S d) s 1 j = Ok t ->
  1 < j < len s /\ t = cactus_one_list f j s.
Proof.
  cbn [cactus_rec]. unfold size. destruct (negb _) eqn:G; [discriminate|].
  apply negb_false_iff in G. apply andb_prop in G as [G Hj].
  apply andb_prop in G as [_ H1j]. apply Z.ltb_lt in H1j, Hj.
  destruct (Z.eqb_spec 1 j); [lia|]. cbn [Z.eqb Pos.eqb]. unfold element.
  intros H. apply bind_Ok_inv in H as (e & He & [= <-]).
  apply evacuation_Ok in He. subst e. split; [lia|].
  unfold cactus_one_list. rewrite !slice_inside by lia.
  rewrite Z.sub_0_r. change (drop (Z.to_nat 0) s) with s. do 2 f_equal.
  apply take_ge. rewrite length_drop. unfold len. lia.
Qed.

Lemma cactus_rec_Ok (d : nat) (s t : list Shape) (i j : Z) :
  cactus_rec _rule d s i j = Ok t -> cactus_list f s i j = Ok t.
Proof.
  destruct d as [|d]; [discriminate|].
  destruct (Z.eqb_spec i 1) as [->|Hi1].
  { intros H. apply cactus_rec_one_Ok in H as [Hj ->].
    unfold cactus_list.
    destruct (Z.ltb_spec 1 j); [|lia].
    destruct (Z.ltb_spec j (len s)); [|lia]. reflexivity. }
  cbn [cactus_rec]. unfold size. destruct (negb _) eqn:G; [discriminate|].
  unfold cactus_list. rewrite G.
  apply negb_false_iff in G. apply andb_prop in G as [G Hj].
  apply andb_prop in G as [Hi Hij]. apply Z.ltb_lt in Hi, Hij, Hj.
  destruct (Z.eqb_spec i j); [lia|]. destruct (Z.eqb_spec i 1); [lia|].
  intros H. apply bind_Ok_inv in H as (a & Ha & H).
  apply bind_Ok_inv in H as (b & Hb & H).
  destruct d as [|d]; [discriminate|].
  apply cactus_rec_one_Ok in Ha as [_ ->].
  apply cactus_rec_one_Ok in Hb as [Hgap ->].
  apply cactus_rec_one_Ok in H as [_ ->].
  destruct (Z.ltb_spec (j - i) 2); [lia|]. reflexivity.
Qed.

Lemma cactus_Ok (s t : list Shape) (i j : Z) :
  cactus _rule s i j = Ok t -> cactus_list f s i j = Ok t.
Proof. apply cactus_rec_Ok. Qed.
End Returned.

(** ** First item, last item and tail *)

Section Ends.
Context {Shape : Type}.
Variable f : Shape -> Shape -> Shape -> Shape.

Lemma promotion_list_head (s : list Shape) :
  head (promotion_list f s) = head s.
Proof.
  destruct s as [|x t _] using rev_ind; [reflexivity|].
  rewrite promotion_list_snoc. destruct t; reflexivity.
Qed.

Lemma promotion_list_last (s : list Shape) :
  last (promotion_list f s) = last s.
Proof.
  destruct s as [|x t _] using rev_ind; [reflexivity|].
  now rewrite promotion_list_snoc, !last_snoc.
Qed.

Lemma evacuation_list_last (s : list Shape) :
  last (evacuation_list f s) = last s.
Proof.
  destruct s as [|x t _] using rev_ind; [reflexivity|].
  now rewrite evacuation_list_snoc, !last_snoc.
Qed.

Lemma evacuation_list_head (s : list Shape) :
  head (evacuation_list f s) = head s.
Proof.
  remember (length s) as n eqn:Hn. revert s Hn.
  induction n as [|n IH]; intros s Hn.
  - destruct s; [reflexivity | discriminate].
  - destruct s as [|x t _] using rev_ind; [discriminate|].
    rewrite length_app in Hn. simpl in Hn.
    rewrite evacuation_list_snoc. destruct t as [|a l]; [reflexivity|].
    assert (head (evacuation_list f (promotion_init f x (a :: l))) = Some a)
      as Hh by (rewrite IH; [reflexivity | rewrite promotion_init_length; lia]).
    destruct (evacuation_list f (promotion_init f x (a :: l)));
      [discriminate | exact Hh].
Qed.

Lemma cactus_one_list_head (j : Z) (s : list Shape) :
  head (cactus_one_list f j s) = head s.
Proof.
  unfold cactus_one_list. destruct (Z.to_nat (j - 1)) as [|m]; [reflexivity|].
  destruct s as [|a s]; [reflexivity|]. cbn [take drop].
  pose proof (evacuation_list_head (a :: take m s)) as Hh.
  destruct (evacuation_list f (a :: take m s)); [discriminate | exact Hh].
Qed.

(** The generator with indices [1, j] keeps everything from position
    [j - 1] on. *)
Lemma cactus_one_list_drop (j : Z) (k : nat) (s : list Shape) :
  (Z.to_nat (j - 1) <= k)%nat ->
  drop k (cactus_one_list f j s) = drop k s.
Proof.
  intros Hk. unfold cactus_one_list. set (m := Z.to_nat (j - 1)) in *.
  rewrite drop_app, evacuation_list_length.
  rewrite (drop_ge (evacuation_list f _))
    by (rewrite evacuation_list_length, length_take; lia).
  rewrite drop_drop, length_take. cbn [app].
  destruct (decide (m <= length s)%nat).
  - f_equal. lia.
  - rewrite !drop_ge by lia. reflexivity.
Qed.

Lemma cactus_list_drop (s t : list Shape) (i j : Z) :
  cactus_list f s i j = Ok t ->
  drop (Z.to_nat (j - 1)) t = drop (Z.to_nat (j - 1)) s.
Proof.
  unfold cactus_list. destruct (negb _) eqn:G; [discriminate|].
  apply negb_false_iff in G. apply andb_prop in G as [G Hj].
  apply andb_prop in G as [Hi Hij]. apply Z.ltb_lt in Hi, Hij, Hj.
  destruct (i =? 1).
  - intros [= <-]. now apply cactus_one_list_drop.
  - destruct (j - i <? 2); [discriminate|]. intros [= <-].
    rewrite !cactus_one_list_drop by lia. reflexivity.
Qed.

Lemma cactus_list_head (s t : list Shape) (i j : Z) :
  cactus_list f s i j = Ok t -> head t = head s.
Proof.
  unfold cactus_list. destruct (negb _); [discriminate|].
  destruct (i =? 1).
  - intros [= <-]. apply cactus_one_list_head.
  - destruct (j - i <? 2); [discriminate|]. intros [= <-].
    now rewrite !cactus_one_list_head.
Qed.

Lemma cactus_list_length (s t : list Shape) (i j : Z) :
  cactus_list f s i j = Ok t -> length t = length s.
Proof.
  unfold cactus_list. destruct (negb _); [discriminate|].
  destruct (i =? 1).
  - intros [= <-]. apply cactus_one_list_length.
  - destruct (j - i <? 2); [discriminate|]. intros [= <-].
    now rewrite !cactus_one_list_length.
Qed.
End Ends.

Lemma initial_shape_head {Shape : Type} (s t : list Shape) :
  head t = head s -> initial_shape t = initial_shape s.
Proof.
  unfold initial_shape. rewrite !getitem_head.
  destruct s, t; simpl; congruence.
Qed.

Lemma final_shape_last {Shape : Type} (s t : list Shape) :
  last t = last s -> final_shape t = final_shape s.
Proof. unfold final_shape. rewrite !getitem_last. now intros ->. Qed.

(** A list with the tail of another from a position inside both has its
    last item. *)
Lemma last_of_drop {A : Type} (s t : list A) (k : nat) :
  (k < length s)%nat -> length t = length s -> drop k t = drop k s ->
  last t = last s.
Proof.
  intros Hk Hlen Hd.
  rewrite <- (take_drop k t), <- (take_drop k s), Hd, !last_app.
  destruct (last (drop k s)) eqn:E; [reflexivity|].
  apply last_None in E. apply (f_equal length) in E.
  rewrite length_drop in E. simpl in E. lia.
Qed.

(** ** Promotion, evacuation and the generators, for any rule *)

Section Operators.
Context {Shape : Type} `{EqDecision Shape}.
Variable _rule : list Shape -> exc Shape.

Local Abbreviation f := (rule3 _rule).
Local Abbreviation out_of_bounds := (ValueError "Integers out of bounds.").

Lemma setitem_at {A : Type} (l l' : list A) (i : Z) (v : A) :
  0 <= i -> setitem l i v = Ok l' -> l' = <[Z.to_nat i := v]> l.
Proof.
  intros Hi. unfold setitem. destruct (Z.ltb_spec i 0); [lia|].
  destruct (_ && _); [|discriminate]. now intros [= <-].
Qed.

(** X1.  Whatever [local_rule] returns differs from the sequence at most
    at position [i]; this covers the last position too. *)
Theorem local_rule_changes_one_position (s t : list Shape) (i : Z) :
  local_rule _rule s i = Ok t ->
  forall k : nat, k <> Z.to_nat i -> t !! k = s !! k.
Proof.
  unfold local_rule, element. destruct (negb _) eqn:G; [discriminate|].
  apply negb_false_iff in G. apply andb_prop in G as [Hi _].
  apply Z.ltb_lt in Hi. intros H k Hk.
  apply bind_Ok_inv in H as (v & _ & H).
  apply bind_Ok_inv in H as (r & Hr & [= <-]).
  apply setitem_at in Hr; [|lia]. subst r.
  now apply list_lookup_insert_ne.
Qed.

Lemma promotion_sweep_eq (s : list Shape) :
  promotion _rule s =
  for_each (fun result i => local_rule _rule result i)
           (range 1 (size s - 1)) s.
Proof.
  unfold promotion, element, size.
  change (fun result : list Shape => Ok result) with (@Ok (list Shape)).
  rewrite bind_ret.
  apply (for_each_ext_inv (fun r => length r = length s)); [| |reflexivity].
  - intros a x a' Ha _ H. apply bind_Ok_inv in H as (v & _ & H).
    apply setitem_length in H. congruence.
  - intros a x Ha Hx. unfold range in Hx. apply elem_of_seqZ in Hx.
    unfold local_rule, element.
    assert (len a = len s) as Hl by (unfold len; congruence).
    destruct (Z.ltb_spec 0 x); [|lia].
    destruct (Z.ltb_spec x (len a)); [|lia]. cbn [andb negb].
    destruct (_rule _) as [v|e]; [|reflexivity]. rewrite !bind_Ok.
    change (fun result : list Shape => Ok result) with (@Ok (list Shape)).
    now rewrite bind_ret.
Qed.

(** X2.  [promotion] is the sweep of [local_rule] over the positions
    [1 .. size - 2], from left to right, each call working on the result
    of the one before. *)
Theorem promotion_is_local_rule_sweep (s : list Shape) :
  promotion _rule s =
  for_each (fun result i => local_rule _rule result i)
           (range 1 (size s - 1)) s.
Proof. apply promotion_sweep_eq. Qed.

(** X3.  On a sequence of fewer than three items [promotion] returns the
    sequence and does not call the rule. *)
Theorem promotion_short (s : list Shape) :
  size s < 3 -> promotion _rule s = Ok s.
Proof.
  intros Hs. unfold promotion, range, size in *.
  rewrite seqZ_nil by lia. reflexivity.
Qed.

(** X4.  Whatever [promotion] returns has the initial and the final shape
    of the sequence. *)
Theorem promotion_keeps_ends (s t : list Shape) :
  promotion _rule s = Ok t ->
  initial_shape t = initial_shape s /\ final_shape t = final_shape s.
Proof.
  intros H. apply promotion_Ok in H. subst t. split.
  - apply initial_shape_head, promotion_list_head.
  - apply final_shape_last, promotion_list_last.
Qed.

(** X5.  Under the involution contract a promotion is undone by sweeping
    [local_rule] over the same positions from right to left. *)
Theorem promotion_undone_by_reverse_sweep :
  involution_contract _rule ->
  forall s t : list Shape,
    promotion _rule s = Ok t ->
    for_each (fun result i => local_rule _rule result i)
             (reverse (range 1 (size s - 1))) t = Ok s.
Proof.
  intros Hc s t H. rewrite promotion_sweep_eq in H. revert H.
  apply (for_each_reverse_undo (fun r => length r = length s)); [|reflexivity].
  intros a x a' Ha Hx H. unfold range in Hx. apply elem_of_seqZ in Hx.
  split; [apply local_rule_length in H; congruence|].
  assert (interior a x) as Hi
    by (unfold interior, size, len in *; rewrite Ha; lia).
  destruct (local_rule_pair _ Hc a x Hi) as (u & Hu & Hback). congruence.
Qed.

(** X6.  Whatever [evacuation] returns has the initial and the final
    shape of the sequence. *)
Theorem evacuation_keeps_ends (s t : list Shape) :
  evacuation _rule s = Ok t ->
  initial_shape t = initial_shape s /\ final_shape t = final_shape s.
Proof.
  intros H. apply evacuation_Ok in H. subst t. split.
  - apply initial_shape_head, evacuation_list_head.
  - apply final_shape_last, evacuation_list_last.
Qed.

(** X7.  Whatever [cactus(i, j)] returns agrees with the sequence from
    position [j - 1] on, and has its initial and final shape: a generator
    only rewrites positions [1 .. j - 3]. *)
Theorem cactus_keeps_ends_and_tail (s t : list Shape) (i j : Z) :
  cactus _rule s i j = Ok t ->
  initial_shape t = initial_shape s /\
  final_shape t = final_shape s /\
  slice t (j - 1) (len t) = slice s (j - 1) (len s).
Proof.
  intros H. apply cactus_Ok in H.
  pose proof (cactus_list_length _ _ _ _ _ H) as Hlen.
  pose proof (cactus_list_drop _ _ _ _ _ H) as Hdrop.
  pose proof (cactus_list_head _ _ _ _ _ H) as Hhead.
  assert (0 < i < j /\ j < len s) as Hb.
  { unfold cactus_list in H. destruct (negb _) eqn:G; [discriminate|].
    apply negb_false_iff in G. apply andb_prop in G as [G Hj].
    apply andb_prop in G as [Hi Hij]. apply Z.ltb_lt in Hi, Hij, Hj. lia. }
  assert (len t = len s) as Hl by (unfold len; congruence).
  split; [now apply initial_shape_head|].
  split.
  - apply final_shape_last.
    apply (last_of_drop s t (Z.to_nat (j - 1))); [unfold len in Hb; lia|..];
      assumption.
  - rewrite !slice_inside by lia. now rewrite Hl, Hdrop.
Qed.

(** X8.  [cactus(1, 2)] and [cactus(1, 3)] return the sequence unchanged
    and do not call the rule: the head they evacuate has fewer than three
    items. *)
Theorem cactus_small_generators_identity (s : list Shape) (j : Z) :
  j = 2 \/ j = 3 -> j < size s -> cactus _rule s 1 j = Ok s.
Proof.
  intros Hj Hs. unfold cactus, recursion_limit.
  change 1000%nat with (S 999). generalize 999%nat. intros d.
  cbn [cactus_rec]. unfold size in *.
  destruct (Z.ltb_spec 0 1); [|lia]. destruct (Z.ltb_spec 1 j); [|lia].
  destruct (Z.ltb_spec j (len s)); [|lia].
  destruct (Z.eqb_spec 1 j); [lia|]. cbn [andb negb Z.eqb Pos.eqb].
  unfold element, evacuation, size.
  assert ((len (slice s 0 (j - 1)) <? 3) = true) as ->.
  { apply Z.ltb_lt. rewrite slice_inside by lia. unfold len.
    rewrite length_take. lia. }
  rewrite bind_Ok, slice_split by lia. reflexivity.
Qed.

Lemma cactus_rec_one_depth (d : nat) (s : list Shape) (j : Z) :
  cactus_rec _rule (S d) s 1 j = cactus_rec _rule 1 s 1 j.
Proof. reflexivity. Qed.

Lemma cactus_rec_depth (d : nat) (s : list Shape) (i j : Z) :
  cactus_rec _rule (S (S d)) s i j = cactus_rec _rule 2 s i j.
Proof.
  cbn [cactus_rec]. destruct (negb _); [reflexivity|].
  destruct (i =? j); [reflexivity|]. destruct (i =? 1); [reflexivity|].
  reflexivity.
Qed.

(** X9.  [cactus] nests its calls one level deep at most: with any limit
    of two or more nested calls the result is that of [cactus], so the
    recursion always ends and never exhausts the limit. *)
Theorem cactus_depth_two (d : nat) (s : list Shape) (i j : Z) :
  cactus_rec _rule (S (S d)) s i j = cactus _rule s i j.
Proof.
  unfold cactus, recursion_limit. change 1000%nat with (S (S 998)).
  generalize 998%nat. intros d'. now rewrite !cactus_rec_depth.
Qed.
End Operators.

(** ** What the checks decide *)

Lemma for_each_check_false {B : Type} (g : B -> exc bool) (xs : list B) :
  for_each (fun (ok : bool) x => if ok then g x else Ok false) xs false
  = Ok false.
Proof. induction xs as [|x xs IH]; [reflexivity | exact IH]. Qed.

Lemma for_each_check_true {B : Type} (g : B -> exc bool) (xs : list B) :
  for_each (fun (ok : bool) x => if ok then g x else Ok false) xs true
  = Ok true <->
  forall x, x ∈ xs -> g x = Ok true.
Proof.
  induction xs as [|x xs IH].
  - split; [intros _ y Hy; inversion Hy | reflexivity].
  - cbn [for_each]. split.
    + intros H. apply bind_Ok_inv in H as ([|] & Hg & H).
      * intros y Hy. apply elem_of_cons in Hy as [->|Hy]; [exact Hg|].
        now apply IH.
      * rewrite for_each_check_false in H. discriminate.
    + intros H. rewrite (H x) by apply list_elem_of_here. rewrite bind_Ok.
      apply IH. intros y Hy. apply H. now apply list_elem_of_further.
Qed.

Lemma mapM_forallb_true {B : Type} (g : B -> exc bool) (xs : list B) :
  (l ← mapM g xs; Ok (forallb id l)) = Ok true <->
  forall x, x ∈ xs -> g x = Ok true.
Proof.
  induction xs as [|x xs IH].
  - split; [intros _ y Hy; inversion Hy | reflexivity].
  - cbn [mapM]. split.
    + intros H. apply bind_Ok_inv in H as (l & Hl & H).
      apply bind_Ok_inv in Hl as (y & Hy & Hl).
      apply bind_Ok_inv in Hl as (k & Hk & [= <-]).
      injection H as H. cbn [forallb] in H. apply andb_prop in H as [Hy1 Hk1].
      unfold id in Hy1. subst y.
      intros z Hz. apply elem_of_cons in Hz as [->|Hz]; [exact Hy|].
      apply IH; [|exact Hz]. now rewrite Hk, bind_Ok, Hk1.
    + intros H. rewrite (H x) by apply list_elem_of_here. rewrite bind_Ok.
      assert ((l ← mapM g xs; Ok (forallb id l)) = Ok true) as Hxs
        by (apply IH; intros y Hy; apply H; now apply list_elem_of_further).
      apply bind_Ok_inv in Hxs as (k & -> & [= Hk]).
      rewrite !bind_Ok. cbn [forallb]. now rewrite Hk.
Qed.

Section CheckFacts.
Context {Shape : Type} `{EqDecision Shape}.
Variable _rule : list Shape -> exc Shape.

Local Abbreviation out_of_bounds := (ValueError "Integers out of bounds.").

(** X10.  [check_involution_rule] returns [True] exactly when applying
    [local_rule] twice gives the sequence back at every interior
    position. *)
Theorem check_involution_rule_decides (s : list Shape) :
  check_involution_rule _rule s = Ok true <->
  forall i, interior s i ->
            (t ← local_rule _rule s i; local_rule _rule t i) = Ok s.
Proof.
  unfold check_involution_rule.
  change (fun ok : bool => Ok ok) with (@Ok bool). rewrite bind_ret.
  rewrite for_each_check_true. unfold range, interior. split.
  - intros H i Hi. specialize (H (i - 1)).
    replace (i - 1 + 1) with i in H by lia.
    assert (i - 1 ∈ seqZ 0 (size s - 2 - 0)) as Hin
      by (apply elem_of_seqZ; lia).
    apply H in Hin. apply bind_Ok_inv in Hin as (a & Ha & Hin).
    apply bind_Ok_inv in Hin as (b & Hb & [= Hd]).
    apply bool_decide_eq_true_1 in Hd. subst b. now rewrite Ha, bind_Ok.
  - intros H i Hi. apply elem_of_seqZ in Hi.
    assert (0 < i + 1 < size s - 1) as Hint by lia.
    apply H in Hint. apply bind_Ok_inv in Hint as (a & Ha & Hb).
    rewrite Ha, bind_Ok, Hb, bind_Ok. now rewrite bool_decide_eq_true_2.
Qed.

(** X11.  [check_involution_cactus] returns [True] exactly when applying
    [cactus(1, j)] twice gives the sequence back for every
    [2 <= j < size]. *)
Theorem check_involution_cactus_decides (s : list Shape) :
  check_involution_cactus _rule s = Ok true <->
  forall j, 2 <= j < size s ->
            (t ← cactus _rule s 1 j; cactus _rule t 1 j) = Ok s.
Proof.
  unfold check_involution_cactus. rewrite mapM_forallb_true.
  unfold range. split.
  - intros H j Hj.
    assert (j ∈ seqZ 2 (size s - 2)) as Hin by (apply elem_of_seqZ; lia).
    apply H in Hin. apply bind_Ok_inv in Hin as (a & Ha & Hin).
    apply bind_Ok_inv in Hin as (b & Hb & [= Hd]).
    apply bool_decide_eq_true_1 in Hd. subst b. now rewrite Ha, bind_Ok.
  - intros H j Hj. apply elem_of_seqZ in Hj.
    assert (2 <= j < size s) as Hint by lia.
    apply H in Hint. apply bind_Ok_inv in Hint as (a & Ha & Hb).
    rewrite Ha, bind_Ok, Hb, bind_Ok. now rewrite bool_decide_eq_true_2.
Qed.

Lemma combinations_short {A : Type} (l : list A) :
  forall r : nat, (length l < r)%nat -> combinations l r = [].
Proof.
  induction l as [|x l IH]; intros r Hr.
  - destruct r; [simpl in Hr; lia | reflexivity].
  - destruct r as [|r]; [lia|]. simpl in Hr. cbn [combinations].
    rewrite (IH r), (IH (S r)) by lia. reflexivity.
Qed.

(** The first combination of four indices is [0, 1, 2, 3]. *)
Lemma combinations_range_first (n : Z) :
  4 <= n ->
  exists rest, combinations (range 0 n) 4 = [0; 1; 2; 3] :: rest.
Proof.
  intros Hn. unfold range.
  rewrite (seqZ_cons 0) by lia. rewrite (seqZ_cons (Z.succ 0)) by lia.
  rewrite (seqZ_cons (Z.succ (Z.succ 0))) by lia.
  rewrite (seqZ_cons (Z.succ (Z.succ (Z.succ 0)))) by lia.
  cbn [combinations].
  assert (forall l : list Z, combinations l 0 = [[]]) as ->
    by (intros []; reflexivity).
  cbn [fmap list_fmap app]. eauto.
Qed.

Lemma combinations_range_none (n : Z) :
  n < 4 -> combinations (range 0 n) 4 = [].
Proof.
  intros Hn. apply combinations_short. unfold range.
  rewrite length_seqZ. lia.
Qed.

(** X12.  [check_commutation] returns [True] on a sequence of fewer than
    four items, where there is nothing to check, and raises [ValueError]
    on every longer one: the first combination is [(0, 1, 2, 3)] and
    [cactus(0, 1)] is out of bounds. *)
Theorem check_commutation_outcome (s : list Shape) :
  check_commutation _rule s =
  if size s <? 4 then Ok true else Raise out_of_bounds.
Proof.
  unfold check_commutation. destruct (Z.ltb_spec (size s) 4) as [Hs|Hs].
  - now rewrite combinations_range_none.
  - destruct (combinations_range_first (size s) Hs) as [rest ->].
    cbn [for_each]. rewrite (cactus_out_of_bounds _ s 0 1); reflexivity.
Qed.

(** X13.  [check_coboundary] returns [True] on a sequence of fewer than
    four items and raises [ValueError] on every longer one: the first
    combination is [(0, 1, 2, 3)] and [cactus(0, 3)] is out of bounds. *)
Theorem check_coboundary_outcome (s : list Shape) :
  check_coboundary _rule s =
  if size s <? 4 then Ok true else Raise out_of_bounds.
Proof.
  unfold check_coboundary. destruct (Z.ltb_spec (size s) 4) as [Hs|Hs].
  - now rewrite combinations_range_none.
  - destruct (combinations_range_first (size s) Hs) as [rest ->].
    cbn [for_each]. rewrite (cactus_out_of_bounds _ s 0 3); reflexivity.
Qed.

(** X14.  [check_consistent] never returns: once the cylindrical diagram
    is built, the bound [n] of its loop is a name that nothing binds, and
    when the rule returns on triples that [NameError] is what is
    raised. *)
Theorem check_consistent_raises (s : list Shape) :
  exists e, check_consistent _rule s = Raise e /\
    (rule_returns _rule -> e = NameError "n").
Proof.
  unfold check_consistent.
  destruct (cylindrical_diagram _rule s) as [d|e] eqn:E.
  - exists (NameError "n"). split; reflexivity.
  - exists e. split; [reflexivity|]. intros Hret.
    rewrite (cylindrical_diagram_eq _ Hret) in E. discriminate.
Qed.

(** X15.  [commutor] never returns.  When [other] has fewer than two
    items its loop is empty and the unbound name [result] raises
    [NameError]; when [other] has at least two items and the sequence
    fewer than two, reading [row[0]] or [row[1]] raises [IndexError]
    before the rule is called. *)
Theorem commutor_raises (s other : list Shape) :
  (exists e, commutor _rule s other = Raise e) /\
  (len other < 2 -> commutor _rule s other = Raise (NameError "result")) /\
  (2 <= len other -> len s < 2 ->
   commutor _rule s other = Raise (IndexError "list index out of range")).
Proof.
  unfold commutor. repeat split.
  - destruct (for_each _ _ _) as [row|e]; eauto.
  - intros Hm. unfold range.
    rewrite (seqZ_nil 1 (len other - 1)) by lia. reflexivity.
  - intros Hm Hn. unfold range.
    rewrite (seqZ_cons 1 (len other - 1)) by lia. cbn [for_each].
    destruct other as [|c other]; [unfold len in Hm; simpl in Hm; lia|].
    destruct s as [|a [|b s]]; [reflexivity | reflexivity |].
    rewrite !len_cons in Hn. pose proof (len_nonneg s). lia.
Qed.
End CheckFacts.

(** ** The first generator that acts, and the borders of the diagram *)

Section Shapes.
Context {Shape : Type} `{EqDecision Shape}.
Variable _rule : list Shape -> exc Shape.

Local Abbreviation f := (rule3 _rule).

Lemma evacuation_three (a b c : Shape) :
  evacuation _rule [a; b; c] = (v ← _rule [a; b; c]; Ok [a; v; c]).
Proof.
  unfold evacuation, promotion, element. vm_compute.
  destruct (_rule [a; b; c]); reflexivity.
Qed.

(** X17.  [cactus(1, 4)] is [local_rule] at position [1]: it is the first
    generator that can change a sequence. *)
Theorem cactus_first_proper_generator (s : list Shape) :
  4 < size s -> cactus _rule s 1 4 = local_rule _rule s 1.
Proof.
  intros Hs. unfold size in Hs.
  destruct s as [|a [|b [|c [|d [|e rest]]]]];
    try (unfold len in Hs; simpl in Hs; lia).
  rewrite (local_rule_window _ [] (d :: e :: rest) a b c 1) by reflexivity.
  unfold cactus, recursion_limit.
  change 1000%nat with (S 999). generalize 999%nat. intros n.
  cbn [cactus_rec]. unfold size.
  destruct (Z.ltb_spec 4 (len (a :: b :: c :: d :: e :: rest))); [|lia].
  cbn [Z.ltb Z.compare Pos.compare Pos.compare_cont andb negb Z.eqb Pos.eqb].
  rewrite !slice_inside by lia. unfold element.
  change (take (Z.to_nat (4 - 1 - 0))
            (drop (Z.to_nat 0) (a :: b :: c :: d :: e :: rest)))
    with [a; b; c].
  change (drop (Z.to_nat (4 - 1)) (a :: b :: c :: d :: e :: rest))
    with (d :: e :: rest).
  rewrite take_ge by (rewrite !len_cons; unfold len; simpl; lia).
  rewrite evacuation_three.
  destruct (_rule [a; b; c]); reflexivity.
Qed.

Lemma promotion_list_iter_ends (n : nat) (s : list Shape) :
  head (Nat.iter n (promotion_list f) s) = head s /\
  last (Nat.iter n (promotion_list f) s) = last s.
Proof.
  induction n as [|n [IH1 IH2]]; [split; reflexivity|]. simpl.
  now rewrite promotion_list_head, promotion_list_last.
Qed.

(** X18.  In every row of the cylindrical diagram the placeholders are
    followed by the initial shape of the sequence, and the row ends with
    its final shape: the diagonal and the right border are constant. *)
Theorem cylindrical_diagram_borders :
  rule_returns _rule ->
  forall (s : list Shape) (table : list (list (option Shape))),
    cylindrical_diagram _rule s = Ok table ->
    forall (i : nat) (row : list (option Shape)),
      table !! i = Some row ->
      (forall k : nat, (k < i)%nat -> row !! k = Some None) /\
      row !! i = Some (head s) /\
      last row = Some (last s).
Proof.
  intros Hret s table Ht i row Hrow.
  rewrite (cylindrical_diagram_eq _ Hret) in Ht. injection Ht as <-.
  assert (i < length s)%nat as Hi
    by (apply lookup_lt_Some in Hrow; now rewrite diagram_rows_length in Hrow).
  rewrite diagram_rows_lookup in Hrow by assumption.
  injection Hrow as <-. cbn [Nat.add].
  destruct (promotion_list_iter_ends i s) as [Hh Hl].
  set (T := Nat.iter i (promotion_list f) s) in *.
  assert (T <> []) as HT.
  { intros E. rewrite E in Hh. destruct s; [simpl in Hi; lia | discriminate]. }
  repeat split.
  - intros k Hk. rewrite lookup_app_l by (rewrite length_replicate; lia).
    now apply lookup_replicate_2.
  - rewrite lookup_app_r by (rewrite length_replicate; lia).
    rewrite length_replicate, Nat.sub_diag, list_lookup_fmap.
    rewrite <- head_lookup, Hh. destruct s; [simpl in Hi; lia | reflexivity].
  - rewrite last_app, fmap_last, Hl.
    destruct (last s) eqn:E; [reflexivity|].
    apply last_None in E. subst s. simpl in Hi. lia.
Qed.
End Shapes.

(** ** The further properties on concrete sequences *)

Lemma local_rule_changes_one_position_witness :
  local_rule diff_rule [1; 5; 2] 1 = Ok [1; -2; 2]
  /\ [1; -2; 2] !! 0%nat = [1; 5; 2] !! 0%nat.
Proof.
  assert (local_rule diff_rule [1; 5; 2] 1 = Ok [1; -2; 2]) as H
    by reflexivity.
  split; [exact H|].
  apply (local_rule_changes_one_position diff_rule [1; 5; 2] [1; -2; 2] 1 H).
  simpl. lia.
Defined.

Lemma promotion_short_witness : promotion diff_rule [1; 5] = Ok [1; 5].
Proof.
  apply (promotion_short diff_rule [1; 5]). unfold size, len. simpl. lia.
Defined.

Lemma promotion_keeps_ends_witness :
  initial_shape [1; -2; 3; 0; 4] = initial_shape [1; 5; 2; 7; 4]
  /\ final_shape [1; -2; 3; 0; 4] = final_shape [1; 5; 2; 7; 4].
Proof.
  apply (promotion_keeps_ends diff_rule [1; 5; 2; 7; 4]). reflexivity.
Defined.

Lemma promotion_undone_by_reverse_sweep_witness :
  for_each (fun result i => local_rule diff_rule result i)
           (reverse (range 1 (size [1; 5; 2; 7; 4] - 1))) [1; -2; 3; 0; 4]
  = Ok [1; 5; 2; 7; 4].
Proof.
  apply (promotion_undone_by_reverse_sweep diff_rule diff_rule_contract
           [1; 5; 2; 7; 4]).
  reflexivity.
Defined.

Lemma evacuation_keeps_ends_witness :
  initial_shape [1; 2; 5; 4; 1; 7; 7] = initial_shape [1; 1; 2; 5; 4; 1; 7]
  /\ final_shape [1; 2; 5; 4; 1; 7; 7] = final_shape [1; 1; 2; 5; 4; 1; 7].
Proof.
  apply (evacuation_keeps_ends toggle_rule [1; 1; 2; 5; 4; 1; 7]).
  reflexivity.
Defined.

Lemma cactus_keeps_ends_and_tail_witness :
  initial_shape [1; 6; 3; 7; 4; 9] = initial_shape [1; 5; 2; 7; 4; 9]
  /\ final_shape [1; 6; 3; 7; 4; 9] = final_shape [1; 5; 2; 7; 4; 9]
  /\ slice [1; 6; 3; 7; 4; 9] (5 - 1) (len [1; 6; 3; 7; 4; 9])
     = slice [1; 5; 2; 7; 4; 9] (5 - 1) (len [1; 5; 2; 7; 4; 9]).
Proof.
  apply (cactus_keeps_ends_and_tail diff_rule [1; 5; 2; 7; 4; 9]
           [1; 6; 3; 7; 4; 9] 1 5).
  reflexivity.
Defined.

Lemma cactus_small_generators_identity_witness :
  cactus diff_rule [1; 5; 2; 7] 1 3 = Ok [1; 5; 2; 7].
Proof.
  apply (cactus_small_generators_identity diff_rule [1; 5; 2; 7] 3).
  - right. reflexivity.
  - unfold size, len. simpl. lia.
Defined.

Lemma commutor_raises_witness :
  commutor diff_rule [1; 5; 2] [4] = Raise (NameError "result")
  /\ commutor diff_rule [1] [4; 6] =
     Raise (IndexError "list index out of range").
Proof.
  split.
  - apply (commutor_raises diff_rule [1; 5; 2] [4]).
    unfold len. simpl. lia.
  - apply (commutor_raises diff_rule [1] [4; 6]); unfold len; simpl; lia.
Defined.

Lemma local_rule_last_witness :
  local_rule sum_rule ([1] ++ [5; 2]) 2 =
  (v ← sum_rule [5; 2]; Ok ([1] ++ [5; v])).
Proof. apply (local_rule_last sum_rule [1] 5 2 2). reflexivity. Defined.

Lemma cactus_first_proper_generator_witness :
  cactus diff_rule [1; 5; 2; 7; 4] 1 4 = local_rule diff_rule [1; 5; 2; 7; 4] 1.
Proof.
  apply (cactus_first_proper_generator diff_rule [1; 5; 2; 7; 4]).
  unfold size, len. simpl. lia.
Defined.

Lemma cylindrical_diagram_borders_witness :
  [None; Some 1; Some (-2); Some 2] !! 1%nat = Some (head [1; 5; 2])
  /\ last [None; Some 1; Some (-2); Some 2] = Some (last [1; 5; 2]).
Proof.
  assert (rule_returns diff_rule) as Hret
    by (intros a b c; eexists; reflexivity).
  apply (cylindrical_diagram_borders diff_rule Hret [1; 5; 2]
           [[Some 1; Some 5; Some 2];
            [None; Some 1; Some (-2); Some 2];
            [None; None; Some 1; Some 5; Some 2]] eq_refl 1%nat).
  reflexivity.
Defined.

Lemma check_involution_rule_true_witness :
  check_involution_rule toggle_rule [1; 1; 2; 5; 4; 1; 7] = Ok true.
Proof.
  apply (check_involution_rule_true toggle_rule toggle_rule_contract).
Defined.

Lemma check_involution_cactus_true_witness :
  check_involution_cactus toggle_rule [1; 1; 2; 5; 4; 1; 7] = Ok true.
Proof.
  apply (check_involution_cactus_true toggle_rule toggle_rule_contract).
Defined.
